(** * A shallow embedding of fission's /dev/fuse message pump (volume.go)

    The development follows [volume.go]: the wire codec
    ([processDevFuseFDReadBuf] decoding the 40-byte request header,
    [devFuseFDWriter] building the 16-byte response header and the
    scatter/gather vector), the buffer pool, the read pump
    [devFuseFDReader], [DoMount] and [DoUnmount].

    Conventions of the model:
    - a Go byte slice is a backing array (from the slice's start, so its
      length is the slice's capacity) and a length;
    - the [unsafe.Pointer] loads and stores read and write the machine's
      native integer layout, little-endian on the Linux targets of the
      package (amd64, arm64);
    - code that may panic runs in a small writer monad with a panic
      outcome: it accumulates the observable events (log lines, handler
      calls, writev calls, pool puts, wait-group Done) and stops at the
      first out-of-range index, as Go's runtime does;
    - the goroutines (read pump, dispatch units, the caller of
      DoMount/DoUnmount) are interleaved by a small-step relation over a
      global state. *)

From Stdlib Require Import String Ascii ZArith List Lia Bool DecimalString DecimalZ.
Import ListNotations.
Open Scope string_scope.
Open Scope Z_scope.
Open Scope list_scope.

(** ** Bytes and the native (little-endian) integer layout *)

Definition byteZ (b : Byte.byte) : Z := Z.of_N (Byte.to_N b).

(** Truncation of an integer to its low byte (the store of one byte of a
    wider integer). *)
Definition byte_of_Z (z : Z) : Byte.byte :=
  match Byte.of_N (Z.to_N (z mod 256)) with
  | Some b => b
  | None => Byte.x00
  end.

(** [le_bytes n v]: the [n] bytes a store of the [n]-byte integer [v]
    writes to memory. *)
Fixpoint le_bytes (n : nat) (v : Z) : list Byte.byte :=
  match n with
  | O => []
  | S n' => byte_of_Z v :: le_bytes n' (v / 256)
  end.

(** [le_val l]: the unsigned integer a load of [length l] bytes reads. *)
Fixpoint le_val (l : list Byte.byte) : Z :=
  match l with
  | [] => 0
  | b :: l' => byteZ b + 256 * le_val l'
  end.

(** Go's [int32(x)] conversion: the low 32 bits, read as two's complement. *)
Definition to_int32 (z : Z) : Z :=
  let m := z mod 2 ^ 32 in
  if m <? 2 ^ 31 then m else m - 2 ^ 32.

(** ** Go slices *)

Record slice := mkSlice {
  sl_data : list Byte.byte;   (* backing array from the slice start: cap *)
  sl_len : nat
}.

Definition sl_cap (s : slice) : nat := length (sl_data s).

(** The elements [s[0:len(s)]]. *)
Definition visible (s : slice) : list Byte.byte := firstn (sl_len s) (sl_data s).

(** [s[:n]] (requires [n <= cap s]). *)
Definition reslice_to (s : slice) (n : nat) : slice := mkSlice (sl_data s) n.

(** [s[k:]] (requires [k <= len s]). *)
Definition slice_from (s : slice) (k : nat) : slice :=
  mkSlice (skipn k (sl_data s)) (sl_len s - k).

(** ** A writer monad with panics *)

Record InHeader := mkInHeader {
  Len : Z; OpCode : Z; Unique : Z; NodeID : Z;
  UID : Z; GID : Z; PID : Z; Padding : Z
}.

(** The handler methods of the [Callbacks] interface that
    [processDevFuseFDReadBuf] dispatches to. *)
Inductive handler :=
  | doLookup | doForget | doGetAttr | doSetAttr | doReadLink | doSymLink
  | doMkNod | doMkDir | doUnlink | doRmDir | doRename | doLink | doOpen
  | doRead | doWrite | doStatFS | doRelease | doFSync | doSetXAttr
  | doGetXAttr | doListXAttr | doRemoveXAttr | doFlush | doInit | doOpenDir
  | doReadDir | doReleaseDir | doFSyncDir | doGetLK | doSetLK | doSetLKW
  | doAccess | doCreate | doInterrupt | doBMap | doDestroy | doPoll
  | doBatchForget | doFAllocate | doReadDirPlus | doRename2 | doLSeek.

(** Observable effects of a unit of work. *)
Inductive event :=
  | ELog (format : string) (args : list Z)          (* logger.Printf *)
  | EHandler (h : handler) (hdr : InHeader) (payload : slice)
  | EWritev (fd : Z) (iovec : list (list Byte.byte)) (* SYS_WRITEV *)
  | EPoolPut (buf : slice)                           (* devFuseFDReadPool.Put *)
  | ECallbacksDone.                                  (* callbacksWG.Done() *)

Inductive res (A : Type) : Type :=
  | Ret (a : A) (evs : list event)
  | Panic (evs : list event).
Arguments Ret {A} a evs.
Arguments Panic {A} evs.

Definition ret {A} (a : A) : res A := Ret a [].

Definition bind {A B} (m : res A) (k : A -> res B) : res B :=
  match m with
  | Ret a e1 =>
      match k a with
      | Ret b e2 => Ret b (e1 ++ e2)
      | Panic e2 => Panic (e1 ++ e2)
      end
  | Panic e1 => Panic e1
  end.

Notation "x <- m ;; k" := (bind m (fun x => k))
  (at level 61, m at next level, right associativity).
Notation "m ;; k" := (bind m (fun _ : unit => k))
  (at level 61, right associativity).

Definition emit (e : event) : res unit := Ret tt [e].

(** [&l[i]]: Go's bounds-checked indexing; out of range panics. *)
Definition index {A} (l : list A) (i : nat) : res A :=
  match nth_error l i with
  | Some x => ret x
  | None => Panic []
  end.

Fixpoint mapM {A B} (f : A -> res B) (l : list A) : res (list B) :=
  match l with
  | [] => ret []
  | x :: l' => y <- f x ;; ys <- mapM f l' ;; ret (y :: ys)
  end.

(** The unsafe store of an [n]-byte integer [v] through [&l[k]]: the index
    [k] is bounds-checked, then [n] bytes are written from offset [k]. *)
Definition store (n : nat) (k : nat) (v : Z) (l : list Byte.byte) : res (list Byte.byte) :=
  _ <- index l k ;;
  ret (firstn k l ++ le_bytes n v ++ skipn (k + n) l).

(** The unsafe load of an [n]-byte integer through [&buf[k]]: the index is
    checked against [len(buf)], the [n] bytes are read from the backing
    array. *)
Definition load (n : nat) (buf : slice) (k : nat) : res Z :=
  _ <- index (visible buf) k ;;
  ret (le_val (firstn n (skipn k (sl_data buf)))).

(** ** Package constants

    [InHeaderSize] and [OutHeaderSize] are the sizes of the FUSE request
    and response headers; [WriteInFixedPortionSize] is the fixed part of
    the WRITE request (fh 8, offset 8, size 4, write_flags 4, lock_owner 8,
    flags 4, padding 4); [ENOSYS] is Linux's "function not implemented". *)
Definition InHeaderSize : nat := 40.
Definition OutHeaderSize : nat := 16.
Definition WriteInFixedPortionSize : Z := 40.
Definition ENOSYS : Z := 38.

(** The OpCode constants of the FUSE kernel protocol, paired with the
    handler the [switch] of [processDevFuseFDReadBuf] calls for each, in the
    order of its cases. *)
Definition opCodeTable : list (Z * handler) :=
  [(1, doLookup); (2, doForget); (3, doGetAttr); (4, doSetAttr);
   (5, doReadLink); (6, doSymLink); (8, doMkNod); (9, doMkDir);
   (10, doUnlink); (11, doRmDir); (12, doRename); (13, doLink);
   (14, doOpen); (15, doRead); (16, doWrite); (17, doStatFS);
   (18, doRelease); (20, doFSync); (21, doSetXAttr); (22, doGetXAttr);
   (23, doListXAttr); (24, doRemoveXAttr); (25, doFlush); (26, doInit);
   (27, doOpenDir); (28, doReadDir); (29, doReleaseDir); (30, doFSyncDir);
   (31, doGetLK); (32, doSetLK); (33, doSetLKW); (34, doAccess);
   (35, doCreate); (36, doInterrupt); (37, doBMap); (38, doDestroy);
   (40, doPoll); (42, doBatchForget); (43, doFAllocate);
   (44, doReadDirPlus); (45, doRename2); (46, doLSeek)].

(** The [switch inHeader.OpCode]: the first case whose constant matches. *)
Fixpoint switchOpCode (tbl : list (Z * handler)) (op : Z) : option handler :=
  match tbl with
  | [] => None
  | (c, h) :: tbl' => if Z.eqb op c then Some h else switchOpCode tbl' op
  end.

(** ** The volume *)

Record volumeStruct := mkVolume {
  initOutMaxWrite : Z;        (* uint32 *)
  devFuseFDReadSize : Z;      (* uint32 *)
  devFuseFD : Z
}.

(** [newVolume]: [devFuseFDReadSize] is the uint32 sum
    [InHeaderSize + WriteInFixedPortionSize + initOutMaxWrite]. *)
Definition newVolume (initOutMaxWrite : Z) (fd : Z) : volumeStruct :=
  mkVolume initOutMaxWrite
    ((Z.of_nat InHeaderSize + WriteInFixedPortionSize + initOutMaxWrite) mod 2 ^ 32)
    fd.

(** The pool's [New]: [make([]byte, volume.devFuseFDReadSize)], len == cap. *)
Definition poolNew (v : volumeStruct) : slice :=
  let n := Z.to_nat (devFuseFDReadSize v) in
  mkSlice (repeat Byte.x00 n) n.

(** The slice [devFuseFDReadPoolPut] hands to [Put]: [buf[:cap(buf)]]. *)
Definition devFuseFDReadPoolPutSlice (buf : slice) : slice :=
  reslice_to buf (sl_cap buf).

Section Codec.

(** The kernel's answer to a [SYS_WRITEV] call on a descriptor: the pair
    (bytesWritten, errno). *)
Variable writev : Z -> list (list Byte.byte) -> Z * Z.

(** [devFuseFDWriter(inHeader, errno, bufs...)]. [errno] is a
    [syscall.Errno] (a uintptr, [0 <= errno < 2^64]); [iovecSpan] is a
    uintptr. *)
Definition devFuseFDWriter (v : volumeStruct) (inHeader : InHeader) (errno : Z)
    (bufs : list (list Byte.byte)) : res unit :=
  (if Z.eqb ENOSYS errno
   then emit (ELog "Read unsupported/unrecognized message OpCode == %v" [OpCode inHeader])
   else ret tt) ;;
  iovecTail <- mapM (fun buf => _ <- index buf 0 ;; ret buf) bufs ;;
  let iovecSpan0 :=
    fold_left (fun span buf => (span + Z.of_nat (length buf)) mod 2 ^ 64) bufs 0 in
  let iovecSpan := (iovecSpan0 + Z.of_nat OutHeaderSize) mod 2 ^ 64 in
  outHeader <- store 4 0 (iovecSpan mod 2 ^ 32) (repeat Byte.x00 OutHeaderSize) ;;
  outHeader <- store 4 4 (to_int32 (- to_int32 errno)) outHeader ;;
  outHeader <- store 8 8 (Unique inHeader) outHeader ;;
  let iovec := outHeader :: iovecTail in
  _ <- index iovec 0 ;;
  emit (EWritev (devFuseFD v) iovec) ;;
  let '(bytesWritten, werrno) := writev (devFuseFD v) iovec in
  if Z.eqb 0 werrno
  then (if Z.eqb bytesWritten iovecSpan then ret tt
        else emit (ELog "Write to /dev/fuse returned bad bytesWritten: %v" [bytesWritten]))
  else emit (ELog "Write to /dev/fuse returned bad errno: %v" [werrno]).

(** The [InHeader] literal of [processDevFuseFDReadBuf]. *)
Definition decodeInHeader (buf : slice) : res InHeader :=
  len <- load 4 buf 0 ;;
  op <- load 4 buf 4 ;;
  uniq <- load 8 buf 8 ;;
  node <- load 8 buf 16 ;;
  uid <- load 4 buf 24 ;;
  gid <- load 4 buf 28 ;;
  pid <- load 4 buf 32 ;;
  pad <- load 4 buf 36 ;;
  ret (mkInHeader len op uniq node uid gid pid pad).

(** [processDevFuseFDReadBuf(devFuseFDReadBuf)]: one dispatch unit of work. *)
Definition processDevFuseFDReadBuf (v : volumeStruct) (buf : slice) : res unit :=
  if Nat.ltb (sl_len buf) InHeaderSize
  then
    emit (ELog "Read malformed message from /dev/fuse" []) ;;
    emit (EPoolPut (devFuseFDReadPoolPutSlice buf)) ;;
    emit ECallbacksDone
  else
    inHeader <- decodeInHeader buf ;;
    (match switchOpCode opCodeTable (OpCode inHeader) with
     | Some h => emit (EHandler h inHeader (slice_from buf InHeaderSize))
     | None => devFuseFDWriter v inHeader ENOSYS []
     end) ;;
    emit (EPoolPut (devFuseFDReadPoolPutSlice buf)) ;;
    emit ECallbacksDone.

End Codec.

(** ** DoMount and DoUnmount

    The calling goroutine's code, as the sequence of actions it performs,
    given the error strings the system calls return ([None] for success).
    The return value is the error [err] the function returns. *)
Inductive action :=
  | AUnmount                 (* syscall.Unmount(mountpoint, MNT_FORCE) *)
  | AOpen                    (* syscall.Open("/dev/fuse", ...) *)
  | AAddReader               (* devFuseFDReaderWG.Add(1) *)
  | ASpawnPump               (* go volume.devFuseFDReader() *)
  | AMount                   (* syscall.Mount(...) *)
  | AClose                   (* syscall.Close(devFuseFD) *)
  | AWaitReader              (* devFuseFDReaderWG.Wait() *)
  | ALog (format : string).  (* logger.Printf *)

Definition DoMount (openErr mountErr : option string) : list action * option string :=
  match openErr with
  | Some e => ([AUnmount; AOpen; ALog "Volume %s unable to open /dev/fuse"], Some e)
  | None =>
      let pre := [AUnmount; AOpen; AAddReader; ASpawnPump; AMount] in
      match mountErr with
      | None => (pre ++ [ALog "Volume %s mounted on mountpoint %s"], None)
      | Some e =>
          (pre ++ [ALog "Volume %s mount on mountpoint %s failed: %v"; AClose; AWaitReader],
           Some e)
      end
  end.

Definition DoUnmount (unmountErr closeErr : option string) : list action * option string :=
  match unmountErr with
  | Some e => ([AUnmount; ALog "Unable to unmount %s: %v"], Some e)
  | None =>
      match closeErr with
      | Some e => ([AUnmount; AClose; ALog "Unable to close /dev/fuse: %v"], Some e)
      | None =>
          ([AUnmount; AClose; AWaitReader; ALog "Volume %s unmounted from mountpoint %s"],
           None)
      end
  end.

(** ** The read pump [devFuseFDReader] *)

(** What [syscall.Read(volume.devFuseFD, devFuseFDReadBuf)] returns: the
    bytes read (at most [len(buf)]), or an error, given by [err.Error()]. *)
Inductive readResult :=
  | ReadOk (data : list Byte.byte)
  | ReadErr (msg : string).

(** The read fills the front of the buffer. *)
Definition readInto (buf : slice) (data : list Byte.byte) : slice :=
  mkSlice (data ++ skipn (length data) (sl_data buf)) (sl_len buf).

Inductive readOutcome :=
  | Dispatch (buf : slice)   (* callbacksWG.Add(1); go processDevFuseFDReadBuf(buf) *)
  | Retry                    (* continue *)
  | Exit (err : string).     (* await callbacks, release, signal, return *)

(** The body of the loop after the read. *)
Definition devFuseFDReaderOnRead (buf : slice) (r : readResult) : readOutcome :=
  match r with
  | ReadOk data => Dispatch (reslice_to (readInto buf data) (length data))
  | ReadErr msg =>
      if String.eqb "operation not permitted" msg then Retry else Exit msg
  end.

(** The value sent on [errChan] when the pump exits on [err]. *)
Definition errChanValue (err : string) : option string :=
  if String.eqb "no such device" err then None else Some err.

(** Program counter of the pump goroutine. *)
Inductive pumpPC :=
  | PIdle                    (* not started *)
  | PLoop                    (* at the top of the for loop *)
  | PDrain (err : string)    (* at volume.callbacksWG.Wait() *)
  | PRelease (err : string)  (* at volume.devFuseFDReaderWG.Done() *)
  | PSignal (err : string)   (* at the send on volume.errChan *)
  | PExit.                   (* returned *)

Record St := mkSt {
  pool : list slice;            (* devFuseFDReadPool's free buffers *)
  pump : pumpPC;
  units : list slice;           (* running processDevFuseFDReadBuf goroutines *)
  callbacksWG : nat;
  devFuseFDReaderWG : nat;
  errChan : list (option string); (* values sent on errChan, in order *)
  main : list action            (* remaining actions of the caller *)
}.

(** Effects of a dispatch unit's events on the pool and on callbacksWG. *)
Fixpoint applyEvents (evs : list event) (p : list slice) (wg : nat) : list slice * nat :=
  match evs with
  | [] => (p, wg)
  | EPoolPut b :: evs' => applyEvents evs' (b :: p) wg
  | ECallbacksDone :: evs' => applyEvents evs' p (wg - 1)
  | _ :: evs' => applyEvents evs' p wg
  end.

Section Pump.

Variable writev : Z -> list (list Byte.byte) -> Z * Z.
Variable v : volumeStruct.

(** [devFuseFDReadPool.Get()]: a free buffer, or a new one from [New].
    The pool may also lose free buffers at any time ([poolDrop]). *)
Inductive poolGet : list slice -> slice -> list slice -> Prop :=
  | poolGet_reuse l1 b l2 : poolGet (l1 ++ b :: l2) b (l1 ++ l2)
  | poolGet_new p : poolGet p (poolNew v) p.

Definition readFits (buf : slice) (r : readResult) : Prop :=
  match r with
  | ReadOk data => (length data <= sl_len buf)%nat
  | ReadErr _ => True
  end.

Inductive step : St -> St -> Prop :=
  | step_read p b p' r u cw rw ec m :
      poolGet p b p' -> readFits b r ->
      step (mkSt p PLoop u cw rw ec m)
           (match devFuseFDReaderOnRead b r with
            | Dispatch b' => mkSt p' PLoop (b' :: u) (S cw) rw ec m
            | Retry => mkSt p' PLoop u cw rw ec m
            | Exit e => mkSt p' (PDrain e) u cw rw ec m
            end)
  | step_wait p u rw ec m e :
      step (mkSt p (PDrain e) u 0 rw ec m) (mkSt p (PRelease e) u 0 rw ec m)
  | step_release p u cw rw ec m e :
      step (mkSt p (PRelease e) u cw (S rw) ec m) (mkSt p (PSignal e) u cw rw ec m)
  | step_signal p u cw rw ec m e :
      step (mkSt p (PSignal e) u cw rw ec m)
           (mkSt p PExit u cw rw (ec ++ [errChanValue e]) m)
  | step_unit p pc u1 b u2 cw rw ec m evs :
      processDevFuseFDReadBuf writev v b = Ret tt evs ->
      step (mkSt p pc (u1 ++ b :: u2) cw rw ec m)
           (let '(p', cw') := applyEvents evs p cw in
            mkSt p' pc (u1 ++ u2) cw' rw ec m)
  | step_drop l1 b l2 pc u cw rw ec m :
      step (mkSt (l1 ++ b :: l2) pc u cw rw ec m) (mkSt (l1 ++ l2) pc u cw rw ec m)
  | step_add_reader p pc u cw rw ec m :
      step (mkSt p pc u cw rw ec (AAddReader :: m)) (mkSt p pc u cw (S rw) ec m)
  | step_spawn_pump p u cw rw ec m :
      step (mkSt p PIdle u cw rw ec (ASpawnPump :: m)) (mkSt p PLoop u cw rw ec m)
  | step_wait_reader p pc u cw ec m :
      step (mkSt p pc u cw 0 ec (AWaitReader :: m)) (mkSt p pc u cw 0 ec m)
  | step_syscall p pc u cw rw ec a m :
      In a [AUnmount; AOpen; AMount; AClose] ->
      step (mkSt p pc u cw rw ec (a :: m)) (mkSt p pc u cw rw ec m)
  | step_log p pc u cw rw ec f m :
      step (mkSt p pc u cw rw ec (ALog f :: m)) (mkSt p pc u cw rw ec m).

Inductive steps : St -> St -> Prop :=
  | steps_refl s : steps s s
  | steps_cons s1 s2 s3 : step s1 s2 -> steps s2 s3 -> steps s1 s3.

Definition initSt (prog : list action) : St := mkSt [] PIdle [] 0 0 [] prog.

Definition reachable (prog : list action) (s : St) : Prop := steps (initSt prog) s.

End Pump.

(** Log lines, as opposed to the other events of a unit of work. *)
Definition isLog (ev : event) : Prop := exists f a, ev = ELog f a.

(** The request layout as the spec states it: the [n]-byte integer at
    byte offset [k] of a frame in native (little-endian) order,
    [frame[k] + frame[k+1] * 2^8 + ... + frame[k+n-1] * 2^(8(n-1))]. *)
Fixpoint wireField (frame : list Byte.byte) (k n : nat) : Z :=
  match n with
  | O => 0
  | S n' => wireField frame k n' + byteZ (nth (k + n') frame Byte.x00) * 2 ^ (8 * Z.of_nat n')
  end.

(** The invariant of the interleaved system: the pump's phase, what it
    implies of the running units and of [errChan]. *)
Definition phaseOK (pc : pumpPC) (u : list slice) (ec : list (option string)) : Prop :=
  match pc with
  | PIdle => u = [] /\ ec = []
  | PLoop => ec = []
  | PDrain e => ec = [] /\ e <> "operation not permitted"
  | PRelease e | PSignal e => u = [] /\ ec = [] /\ e <> "operation not permitted"
  | PExit => u = [] /\ length ec = 1%nat
  end.

Definition readSize (v : volumeStruct) : nat := Z.to_nat (devFuseFDReadSize v).

Definition Inv (v : volumeStruct) (s : St) : Prop :=
  callbacksWG s = length (units s) /\
  Forall (fun b => sl_len b = readSize v /\ sl_cap b = readSize v) (pool s) /\
  Forall (fun b => (sl_len b <= sl_cap b)%nat /\ sl_cap b = readSize v) (units s) /\
  Forall (fun o => exists e, o = errChanValue e /\ e <> "operation not permitted") (errChan s) /\
  phaseOK (pump s) (units s) (errChan s).

(** Where the pump stands relative to [devFuseFDReaderWG]: between
    [go volume.devFuseFDReader()] and its [Done] ([pumpHolding]), or past
    the [Done] ([pumpReleased]). [pumpAfterWait]: past
    [callbacksWG.Wait()]. *)
Definition pumpHolding (pc : pumpPC) : Prop :=
  match pc with
  | PLoop | PDrain _ | PRelease _ => True
  | _ => False
  end.

Definition pumpReleased (pc : pumpPC) : Prop :=
  match pc with
  | PSignal _ | PExit => True
  | _ => False
  end.

Definition pumpAfterWait (pc : pumpPC) : Prop :=
  match pc with
  | PRelease _ | PSignal _ | PExit => True
  | _ => False
  end.

(** The reader wait group along a caller program
    [p1 ++ AAddReader :: ASpawnPump :: p2] (DoMount's open-success path,
    followed by [p2]): before [Add(1)], between [Add(1)] and [go], and after
    [go], where a [devFuseFDReaderWG.Wait()] of [p2] the caller has passed
    implies the pump has released the group. *)
Definition ReaderInv (p2 : list action) (s : St) : Prop :=
  (exists l, main s = l ++ AAddReader :: ASpawnPump :: p2 /\
             ~ In AAddReader l /\ ~ In ASpawnPump l /\
             devFuseFDReaderWG s = 0%nat /\ pump s = PIdle) \/
  (main s = ASpawnPump :: p2 /\ devFuseFDReaderWG s = 1%nat /\ pump s = PIdle) \/
  (~ In AAddReader (main s) /\ ~ In ASpawnPump (main s) /\
   ((devFuseFDReaderWG s = 1%nat /\ pumpHolding (pump s)) \/
    (devFuseFDReaderWG s = 0%nat /\ pumpReleased (pump s))) /\
   (In AWaitReader p2 -> In AWaitReader (main s) \/ pumpReleased (pump s))).

(** Events other than returning the buffer and [callbacksWG.Done()]. *)
Definition notRelease (ev : event) : Prop :=
  match ev with
  | EPoolPut _ | ECallbacksDone => False
  | _ => True
  end.

(** ** DoMount's mount options

    [fmt.Sprintf("%d", n)] of an [int], and [fmt.Sprintf("%o", n)] of a
    [uint32]. *)
Definition goItoa (n : Z) : string := NilZero.string_of_int (Z.to_int n).

Fixpoint octal_digits (fuel : nat) (n : N) (acc : string) : string :=
  match fuel with
  | O => acc
  | S f =>
      let acc' := String (Ascii.ascii_of_N (48 + N.modulo n 8)) acc in
      if N.ltb n 8 then acc' else octal_digits f (N.div n 8) acc'
  end.

Definition goOctal (n : N) : string := octal_digits (S (N.size_nat n)) n EmptyString.

(** [syscall.S_IFDIR] on Linux (0o40000). *)
Definition S_IFDIR : N := 16384.

(** [mountOptions] of [DoMount], for the descriptor [devFuseFD] and the
    effective [uid] and [gid]. *)
Definition mountOptions (devFuseFD uid gid : Z) : string :=
  let devFuseFDMountOption := ("fd=" ++ goItoa devFuseFD)%string in
  let rootMode := S_IFDIR in
  let rootModeMountOption := ("rootmode=" ++ goOctal rootMode)%string in
  let uidMountOption := ("user_id=" ++ goItoa uid)%string in
  let gidMountOption := ("group_id=" ++ goItoa gid)%string in
  (devFuseFDMountOption ++ "," ++ rootModeMountOption ++ "," ++ uidMountOption ++ ","
    ++ gidMountOption)%string.

(** The reader's side: the comma-separated fields of an option string,
    and a decimal field read back as an integer. *)
Fixpoint splitComma (s : string) : list string :=
  match s with
  | EmptyString => [EmptyString]
  | String c s' =>
      if Ascii.eqb c "," then EmptyString :: splitComma s'
      else match splitComma s' with
           | [] => [String c EmptyString]
           | w :: ws => String c w :: ws
           end
  end.

Definition goAtoi (s : string) : option Z := option_map Z.of_int (NilZero.int_of_string s).

(** * Properties *)

(** ** The byte layout *)

Lemma byteZ_byte_of_Z (z : Z) : byteZ (byte_of_Z z) = z mod 256.
Proof.
  unfold byteZ, byte_of_Z.
  assert (Hr : 0 <= z mod 256 < 256) by (apply Z.mod_pos_bound; lia).
  destruct (Byte.of_N (Z.to_N (z mod 256))) as [b|] eqn:E.
  - apply Byte.to_of_N in E. rewrite E. lia.
  - apply Byte.of_N_None_iff in E. lia.
Qed.

Lemma le_bytes_length (n : nat) (z : Z) : length (le_bytes n z) = n.
Proof. revert z; induction n; intro z; simpl; auto. Qed.

Lemma le_val_le_bytes (n : nat) (z : Z) :
  le_val (le_bytes n z) = z mod 2 ^ (8 * Z.of_nat n).
Proof.
  revert z; induction n as [|n IH]; intro z.
  - simpl. rewrite Z.mod_1_r. reflexivity.
  - cbn [le_bytes le_val]. rewrite IH, byteZ_byte_of_Z.
    replace (2 ^ (8 * Z.of_nat (S n))) with (256 * 2 ^ (8 * Z.of_nat n)).
    + rewrite Z.rem_mul_r; lia.
    + rewrite Nat2Z.inj_succ, Z.mul_succ_r, Z.pow_add_r by lia. lia.
Qed.

Lemma le_val_bounds (l : list Byte.byte) :
  0 <= le_val l < 2 ^ (8 * Z.of_nat (length l)).
Proof.
  induction l as [|b l IH]; cbn [le_val length].
  - simpl. lia.
  - assert (0 <= byteZ b < 256).
    { unfold byteZ. pose proof (Byte.to_N_bounded b). lia. }
    rewrite Nat2Z.inj_succ, Z.mul_succ_r, Z.pow_add_r by lia. lia.
Qed.

Lemma to_int32_mod (x : Z) : to_int32 (x mod 2 ^ 32) = to_int32 x.
Proof. unfold to_int32. rewrite Z.mod_mod by lia. reflexivity. Qed.

Lemma to_int32_small (x : Z) : - 2 ^ 31 <= x < 2 ^ 31 -> to_int32 x = x.
Proof.
  intro Hx. unfold to_int32.
  destruct (Z_le_gt_dec 0 x) as [Hp|Hn].
  - rewrite Z.mod_small by lia.
    replace (x <? 2 ^ 31) with true by (symmetry; apply Z.ltb_lt; lia). reflexivity.
  - replace (x mod 2 ^ 32) with (x + 2 ^ 32).
    + replace (x + 2 ^ 32 <? 2 ^ 31) with false by (symmetry; apply Z.ltb_ge; lia). lia.
    + rewrite <- (Z.mod_small (x + 2 ^ 32) (2 ^ 32)) by lia.
      apply (proj2 (Z.cong_iff_ex _ _ _)). exists 1. lia.
Qed.

Lemma to_int32_range (x : Z) : - 2 ^ 31 <= to_int32 x < 2 ^ 31.
Proof.
  unfold to_int32. pose proof (Z.mod_pos_bound x (2 ^ 32)) as Hm.
  destruct (x mod 2 ^ 32 <? 2 ^ 31) eqn:Hb;
    [apply Z.ltb_lt in Hb | apply Z.ltb_ge in Hb]; lia.
Qed.

Lemma to_int32_le_bytes4 (x : Z) : to_int32 (le_val (le_bytes 4 x)) = to_int32 x.
Proof.
  rewrite le_val_le_bytes. change (2 ^ (8 * Z.of_nat 4)) with (2 ^ 32).
  apply to_int32_mod.
Qed.

Lemma to_int32_neg_small (e : Z) :
  0 <= e <= 2 ^ 31 -> to_int32 (le_val (le_bytes 4 (to_int32 (- to_int32 e)))) = - e.
Proof.
  intro He. rewrite le_val_le_bytes.
  change (2 ^ (8 * Z.of_nat 4)) with (2 ^ 32). rewrite to_int32_mod.
  destruct (Z.eq_dec e (2 ^ 31)) as [->|Hne]; [reflexivity|].
  rewrite (to_int32_small e) by lia.
  rewrite (to_int32_small (- e)) by lia.
  apply to_int32_small. lia.
Qed.

(** ** The response writer *)

Lemma mapM_index0 (bufs : list (list Byte.byte)) :
  mapM (fun buf => _ <- index buf 0 ;; ret buf) bufs =
  if forallb (fun b => match b with [] => false | _ => true end) bufs
  then Ret bufs [] else Panic [].
Proof.
  induction bufs as [|b bufs IH]; [reflexivity|].
  destruct b as [|x b]; [reflexivity|].
  cbn [mapM forallb]. rewrite IH.
  destruct (forallb _ bufs); reflexivity.
Qed.

Lemma forallb_nonempty (bufs : list (list Byte.byte)) :
  forallb (fun b => match b with [] => false | _ => true end) bufs = true <->
  Forall (fun b => b <> []) bufs.
Proof.
  rewrite forallb_forall, Forall_forall.
  split; intros H b Hb; specialize (H b Hb); destruct b; congruence.
Qed.

Lemma iovecSpan_fold (bufs : list (list Byte.byte)) (a : Z) :
  fold_left (fun span buf => (span + Z.of_nat (length buf)) mod 2 ^ 64) bufs a mod 2 ^ 64 =
  (a + fold_right (fun buf acc => Z.of_nat (length buf) + acc) 0 bufs) mod 2 ^ 64.
Proof.
  revert a; induction bufs as [|b bufs IH]; intro a; cbn [fold_left fold_right].
  - rewrite Z.add_0_r. reflexivity.
  - rewrite IH. rewrite Zplus_mod_idemp_l. f_equal. lia.
Qed.

Section WriterProofs.

Variable writev : Z -> list (list Byte.byte) -> Z * Z.

Lemma devFuseFDWriter_ok (v : volumeStruct) (h : InHeader) (e : Z)
    (bufs : list (list Byte.byte)) :
  Forall (fun b => b <> []) bufs ->
  exists hdr post,
    hdr = le_bytes 4 (((fold_left (fun span buf => (span + Z.of_nat (length buf)) mod 2 ^ 64)
                           bufs 0 + Z.of_nat OutHeaderSize) mod 2 ^ 64) mod 2 ^ 32) ++
          le_bytes 4 (to_int32 (- to_int32 e)) ++ le_bytes 8 (Unique h) /\
    devFuseFDWriter writev v h e bufs =
    Ret tt ((if Z.eqb ENOSYS e
             then [ELog "Read unsupported/unrecognized message OpCode == %v" [OpCode h]]
             else []) ++ EWritev (devFuseFD v) (hdr :: bufs) :: post)
    /\ Forall isLog post.
Proof.
  intro Hne. apply forallb_nonempty in Hne.
  unfold devFuseFDWriter. rewrite mapM_index0, Hne.
  destruct (Z.eqb ENOSYS e); cbn -[Z.eqb];
    destruct (writev _ _) as [bw we];
    destruct (Z.eqb 0 we); try destruct (Z.eqb bw _);
    eexists; eexists; (split; [reflexivity|]); (split; [reflexivity|]);
    repeat constructor; eexists; eexists; reflexivity.
Qed.

End WriterProofs.

Lemma devFuseFDWriter_panic (writev : Z -> list (list Byte.byte) -> Z * Z)
    (v : volumeStruct) (h : InHeader) (e : Z) (bufs : list (list Byte.byte)) :
  In [] bufs ->
  devFuseFDWriter writev v h e bufs =
  Panic (if Z.eqb ENOSYS e
         then [ELog "Read unsupported/unrecognized message OpCode == %v" [OpCode h]]
         else []).
Proof.
  intro Hin.
  assert (Hf : forallb (fun b => match b with [] => false | _ => true end) bufs = false).
  { destruct (forallb _ bufs) eqn:E; [|reflexivity].
    apply forallb_nonempty in E. rewrite Forall_forall in E.
    exfalso. exact (E [] Hin eq_refl). }
  unfold devFuseFDWriter. rewrite mapM_index0, Hf.
  destruct (Z.eqb ENOSYS e); reflexivity.
Qed.

Lemma outHeader_fields (a b c : Z) :
  let hdr := le_bytes 4 a ++ le_bytes 4 b ++ le_bytes 8 c in
  length hdr = 16%nat /\
  firstn 4 hdr = le_bytes 4 a /\
  firstn 4 (skipn 4 hdr) = le_bytes 4 b /\
  firstn 8 (skipn 8 hdr) = le_bytes 8 c.
Proof. cbn. repeat split; reflexivity. Qed.

Lemma iovecSpan_header (bufs : list (list Byte.byte)) :
  ((fold_left (fun span buf => (span + Z.of_nat (length buf)) mod 2 ^ 64) bufs 0
    + Z.of_nat OutHeaderSize) mod 2 ^ 64) mod 2 ^ 32 =
  (16 + fold_right (fun buf acc => Z.of_nat (length buf) + acc) 0 bufs) mod 2 ^ 32.
Proof.
  assert (Hd : (2 ^ 32 | 2 ^ 64)) by (exists (2 ^ 32); reflexivity).
  rewrite Z.mod_mod_divide by exact Hd.
  set (f := fold_left _ bufs 0).
  rewrite <- Zplus_mod_idemp_l.
  rewrite <- (Z.mod_mod_divide f _ _ Hd). unfold f. rewrite iovecSpan_fold.
  rewrite (Z.mod_mod_divide _ _ _ Hd).
  rewrite Zplus_mod_idemp_l. f_equal. change (Z.of_nat OutHeaderSize) with 16. lia.
Qed.

Lemma in_logs_app (pre post : list event) (x : event) :
  Forall isLog pre -> Forall isLog post -> In x (pre ++ post) -> isLog x.
Proof.
  intros H1 H2 Hin. apply in_app_or in Hin as [Hin|Hin];
    [exact (proj1 (Forall_forall _ _) H1 x Hin) | exact (proj1 (Forall_forall _ _) H2 x Hin)].
Qed.

Lemma enosys_log_isLog (e : Z) (h : InHeader) :
  Forall isLog (if Z.eqb ENOSYS e
                then [ELog "Read unsupported/unrecognized message OpCode == %v" [OpCode h]]
                else []).
Proof. destruct (Z.eqb ENOSYS e); repeat constructor; do 2 eexists; reflexivity. Qed.

(** C3 (amended): a response the writer emits for the request header [h],
    status [e] and segments [bufs] is one writev of the 16-byte header
    followed by [bufs] in order; the header's length field is
    [16 + sum |bufs|] truncated to 32 bits, its signed status field is
    [-int32(e)] wrapped through [int32] for every errno [e], which is [-e]
    for [0 <= e <= 2^31], and its Unique field is [h.Unique]. *)
Theorem devFuseFDWriter_response_header
    (writev : Z -> list (list Byte.byte) -> Z * Z) (v : volumeStruct)
    (h : InHeader) (e : Z) (bufs : list (list Byte.byte))
    (evs : list event) (fd : Z) (iovec : list (list Byte.byte)) :
  devFuseFDWriter writev v h e bufs = Ret tt evs ->
  In (EWritev fd iovec) evs ->
  exists hdr,
    iovec = hdr :: bufs /\ fd = devFuseFD v /\ length hdr = 16%nat /\
    le_val (firstn 4 hdr) =
      (16 + fold_right (fun buf acc => Z.of_nat (length buf) + acc) 0 bufs) mod 2 ^ 32 /\
    to_int32 (le_val (firstn 4 (skipn 4 hdr))) = to_int32 (- to_int32 e) /\
    (0 <= e <= 2 ^ 31 -> to_int32 (le_val (firstn 4 (skipn 4 hdr))) = - e) /\
    (0 <= Unique h < 2 ^ 64 -> le_val (firstn 8 (skipn 8 hdr)) = Unique h).
Proof.
  intros Hw Hin.
  destruct (forallb (fun b => match b with [] => false | _ => true end) bufs) eqn:Hf.
  - apply forallb_nonempty in Hf.
    destruct (devFuseFDWriter_ok writev v h e bufs Hf) as [hdr [post [Hhdr [Hok Hpost]]]].
    rewrite Hok in Hw. injection Hw as <-.
    apply in_app_or in Hin as [Hin|Hin].
    + pose proof (proj1 (Forall_forall _ _) (enosys_log_isLog e h) _ Hin) as [? [? Hl]].
      discriminate.
    + destruct Hin as [Heq|Hin].
      * assert (Hi : iovec = hdr :: bufs /\ fd = devFuseFD v) by (split; congruence).
        destruct Hi as [-> ->]. clear Heq.
        destruct (outHeader_fields
                    (((fold_left (fun span buf => (span + Z.of_nat (length buf)) mod 2 ^ 64)
                        bufs 0 + Z.of_nat OutHeaderSize) mod 2 ^ 64) mod 2 ^ 32)
                    (to_int32 (- to_int32 e)) (Unique h)) as [Hl [H1 [H2 H3]]].
        rewrite <- Hhdr in Hl, H1, H2, H3.
        exists hdr. split; [reflexivity|]. split; [reflexivity|].
        split; [exact Hl|].
        rewrite H1, H2, H3. split; [|split; [|split]].
        -- rewrite le_val_le_bytes. change (2 ^ (8 * Z.of_nat 4)) with (2 ^ 32).
           rewrite Z.mod_mod by lia. apply iovecSpan_header.
        -- rewrite to_int32_le_bytes4. apply to_int32_small, to_int32_range.
        -- apply to_int32_neg_small.
        -- intro Hu. rewrite le_val_le_bytes. change (2 ^ (8 * Z.of_nat 8)) with (2 ^ 64).
           apply Z.mod_small. exact Hu.
      * pose proof (proj1 (Forall_forall _ _) Hpost _ Hin) as [? [? Hl]]. discriminate.
  - assert (Hin0 : In [] bufs).
    { apply Bool.not_true_iff_false in Hf.
      destruct (in_dec (list_eq_dec Byte.byte_eq_dec) [] bufs) as [Hi|Hi]; [exact Hi|].
      exfalso. apply Hf, forallb_nonempty, Forall_forall.
      intros b Hb Hnil. subst b. contradiction. }
    rewrite devFuseFDWriter_panic in Hw by exact Hin0. discriminate.
Qed.

Lemma devFuseFDWriter_response_header_witness :
  (devFuseFDWriter (fun _ _ => (17, 0)) (newVolume 4096 3)
     (mkInHeader 40 1 77 1 0 0 0 0) 2 [[Byte.x01]] =
   Ret tt [EWritev 3 [le_bytes 4 17 ++ le_bytes 4 (-2) ++ le_bytes 8 77; [Byte.x01]]]) /\
  In (EWritev 3 [le_bytes 4 17 ++ le_bytes 4 (-2) ++ le_bytes 8 77; [Byte.x01]])
     [EWritev 3 [le_bytes 4 17 ++ le_bytes 4 (-2) ++ le_bytes 8 77; [Byte.x01]]] /\
  exists hdr,
    [le_bytes 4 17 ++ le_bytes 4 (-2) ++ le_bytes 8 77; [Byte.x01]] = hdr :: [[Byte.x01]] /\
    3 = devFuseFD (newVolume 4096 3) /\ length hdr = 16%nat /\
    le_val (firstn 4 hdr) =
      (16 + fold_right (fun buf acc => Z.of_nat (length buf) + acc) 0 [[Byte.x01]]) mod 2 ^ 32 /\
    to_int32 (le_val (firstn 4 (skipn 4 hdr))) = to_int32 (- to_int32 2) /\
    (0 <= 2 <= 2 ^ 31 -> to_int32 (le_val (firstn 4 (skipn 4 hdr))) = - 2) /\
    (0 <= Unique (mkInHeader 40 1 77 1 0 0 0 0) < 2 ^ 64 ->
     le_val (firstn 8 (skipn 8 hdr)) = Unique (mkInHeader 40 1 77 1 0 0 0 0)).
Proof.
  assert (Hw : devFuseFDWriter (fun _ _ => (17, 0)) (newVolume 4096 3)
                 (mkInHeader 40 1 77 1 0 0 0 0) 2 [[Byte.x01]] =
               Ret tt [EWritev 3 [le_bytes 4 17 ++ le_bytes 4 (-2) ++ le_bytes 8 77; [Byte.x01]]])
    by (vm_compute; reflexivity).
  split; [exact Hw|]. split; [left; reflexivity|].
  exact (devFuseFDWriter_response_header _ _ _ _ _ _ _ _ Hw (or_introl eq_refl)).
Defined.

(** C3 fails as stated: an errno above [2^31] wraps through [int32], and a
    payload of [2^32 - 16] bytes makes the 32-bit length field wrap to 0. *)
Lemma devFuseFDWriter_header_wraps :
  (exists evs hdr,
     devFuseFDWriter (fun _ _ => (0, 0)) (newVolume 4096 3) (mkInHeader 40 1 77 1 0 0 0 0)
       (2 ^ 31 + 1) [] = Ret tt evs /\
     In (EWritev 3 [hdr]) evs /\
     to_int32 (le_val (firstn 4 (skipn 4 hdr))) = 2 ^ 31 - 1 /\
     2 ^ 31 - 1 <> - (2 ^ 31 + 1)) /\
  (exists evs hdr,
     devFuseFDWriter (fun _ _ => (0, 0)) (newVolume 4096 3) (mkInHeader 40 1 77 1 0 0 0 0)
       0 [repeat Byte.x00 (S (N.to_nat 4294967279))] = Ret tt evs /\
     In (EWritev 3 [hdr; repeat Byte.x00 (S (N.to_nat 4294967279))]) evs /\
     le_val (firstn 4 hdr) = 0 /\
     16 + Z.of_nat (length (repeat Byte.x00 (S (N.to_nat 4294967279)))) = 2 ^ 32).
Proof.
  split.
  - do 2 eexists. split; [vm_compute; reflexivity|].
    split; [left; reflexivity|].
    split; [vm_compute; reflexivity | lia].
  - assert (Hne : Forall (fun b => b <> []) [repeat Byte.x00 (S (N.to_nat 4294967279))])
      by (constructor; [discriminate | constructor]).
    destruct (devFuseFDWriter_ok (fun _ _ => (0, 0)) (newVolume 4096 3)
                (mkInHeader 40 1 77 1 0 0 0 0) 0 _ Hne) as [hdr [post [Hh [Hok _]]]].
    exists ((if Z.eqb ENOSYS 0
             then [ELog "Read unsupported/unrecognized message OpCode == %v"
                     [OpCode (mkInHeader 40 1 77 1 0 0 0 0)]]
             else []) ++ EWritev (devFuseFD (newVolume 4096 3))
                           (hdr :: [repeat Byte.x00 (S (N.to_nat 4294967279))]) :: post), hdr.
    split; [exact Hok|]. split; [left; reflexivity|].
    assert (Hlen : Z.of_nat (length (repeat Byte.x00 (S (N.to_nat 4294967279)))) = 4294967280).
    { rewrite repeat_length, Nat2Z.inj_succ, N_nat_Z. reflexivity. }
    split; [|rewrite Hlen; reflexivity].
    destruct (outHeader_fields
                (((fold_left (fun span buf => (span + Z.of_nat (length buf)) mod 2 ^ 64)
                    [repeat Byte.x00 (S (N.to_nat 4294967279))] 0 +
                   Z.of_nat OutHeaderSize) mod 2 ^ 64) mod 2 ^ 32)
                (to_int32 (- to_int32 0)) (Unique (mkInHeader 40 1 77 1 0 0 0 0)))
      as [_ [H1 _]].
    rewrite <- Hh in H1. rewrite H1, le_val_le_bytes, iovecSpan_header.
    cbn [fold_right]. rewrite Hlen. reflexivity.
Qed.

(** C9: every index [devFuseFDWriter] takes ([&buf[0]] of each segment,
    the header stores, [&iovec[0]]) is in range when every segment is
    non-empty; any empty segment makes [&buf[0]] panic. *)
Theorem devFuseFDWriter_indexing
    (writev : Z -> list (list Byte.byte) -> Z * Z) (v : volumeStruct)
    (h : InHeader) (e : Z) (bufs : list (list Byte.byte)) :
  (Forall (fun b => b <> []) bufs -> exists evs, devFuseFDWriter writev v h e bufs = Ret tt evs) /\
  (In [] bufs -> exists evs, devFuseFDWriter writev v h e bufs = Panic evs).
Proof.
  split.
  - intro Hne. destruct (devFuseFDWriter_ok writev v h e bufs Hne) as [hdr [post [_ [Hok _]]]].
    eexists. exact Hok.
  - intro Hin. eexists. apply devFuseFDWriter_panic. exact Hin.
Qed.

(** ** Decoding the request header *)

Lemma nth_error_visible (buf : slice) (k : nat) :
  (k < sl_len buf)%nat -> (sl_len buf <= sl_cap buf)%nat ->
  nth_error (visible buf) k = Some (nth k (sl_data buf) Byte.x00).
Proof.
  intros Hk Hc. unfold visible, sl_cap in *.
  rewrite nth_error_firstn.
  destruct (Nat.ltb_spec k (sl_len buf)); [|lia].
  apply nth_error_nth'. lia.
Qed.

Lemma load_ok (n : nat) (buf : slice) (k : nat) :
  (k < sl_len buf)%nat -> (sl_len buf <= sl_cap buf)%nat ->
  load n buf k = Ret (le_val (firstn n (skipn k (sl_data buf)))) [].
Proof.
  intros Hk Hc. unfold load, index. rewrite nth_error_visible by assumption.
  reflexivity.
Qed.

Lemma decodeInHeader_ok (buf : slice) :
  (InHeaderSize <= sl_len buf <= sl_cap buf)%nat ->
  decodeInHeader buf =
  Ret (mkInHeader (le_val (firstn 4 (skipn 0 (sl_data buf))))
                  (le_val (firstn 4 (skipn 4 (sl_data buf))))
                  (le_val (firstn 8 (skipn 8 (sl_data buf))))
                  (le_val (firstn 8 (skipn 16 (sl_data buf))))
                  (le_val (firstn 4 (skipn 24 (sl_data buf))))
                  (le_val (firstn 4 (skipn 28 (sl_data buf))))
                  (le_val (firstn 4 (skipn 32 (sl_data buf))))
                  (le_val (firstn 4 (skipn 36 (sl_data buf))))) [].
Proof.
  unfold InHeaderSize. intros [Hl Hc].
  unfold decodeInHeader.
  rewrite !load_ok by lia. reflexivity.
Qed.

Lemma firstn_S_snoc {A} (n : nat) (l : list A) (d : A) :
  (n < length l)%nat -> firstn (S n) l = firstn n l ++ [nth n l d].
Proof.
  revert l; induction n as [|n IH]; intros [|x l] Hl; cbn in *; try lia.
  - reflexivity.
  - rewrite (IH l) by lia. reflexivity.
Qed.

Lemma le_val_snoc (l : list Byte.byte) (b : Byte.byte) :
  le_val (l ++ [b]) = le_val l + byteZ b * 2 ^ (8 * Z.of_nat (length l)).
Proof.
  induction l as [|x l IH]; cbn [app le_val length].
  - simpl. lia.
  - rewrite IH, Nat2Z.inj_succ, Z.mul_succ_r, Z.pow_add_r by lia. lia.
Qed.

Lemma le_val_wireField (d : list Byte.byte) (k n : nat) :
  (k + n <= length d)%nat -> le_val (firstn n (skipn k d)) = wireField d k n.
Proof.
  induction n as [|n IH]; intro Hn; [reflexivity|].
  rewrite (firstn_S_snoc n (skipn k d) Byte.x00) by (rewrite length_skipn; lia).
  rewrite le_val_snoc, IH by lia. cbn [wireField].
  rewrite length_firstn, length_skipn, nth_skipn.
  replace (Nat.min n (length d - k)) with n by lia. reflexivity.
Qed.

Lemma wireField_visible (buf : slice) (k n : nat) :
  (k + n <= sl_len buf <= sl_cap buf)%nat ->
  wireField (visible buf) k n = wireField (sl_data buf) k n.
Proof.
  intros [Hk Hc]. induction n as [|n IH]; [reflexivity|].
  cbn [wireField]. rewrite IH by lia. unfold visible.
  rewrite nth_firstn. destruct (Nat.ltb_spec (k + n) (sl_len buf)); [reflexivity | lia].
Qed.

Lemma field_at (buf : slice) (k n : nat) :
  (k + n <= sl_len buf <= sl_cap buf)%nat ->
  le_val (firstn n (skipn k (sl_data buf))) = wireField (visible buf) k n.
Proof.
  intros H. rewrite wireField_visible by exact H.
  apply le_val_wireField. unfold sl_cap in H. lia.
Qed.

Lemma bind_ret_nil {A B} (a : A) (k : A -> res B) : bind (Ret a []) k = k a.
Proof. unfold bind. destruct (k a); reflexivity. Qed.

Lemma processDevFuseFDReadBuf_long
    (writev : Z -> list (list Byte.byte) -> Z * Z) (v : volumeStruct) (buf : slice) :
  (InHeaderSize <= sl_len buf <= sl_cap buf)%nat ->
  let h := mkInHeader (wireField (visible buf) 0 4) (wireField (visible buf) 4 4)
                      (wireField (visible buf) 8 8) (wireField (visible buf) 16 8)
                      (wireField (visible buf) 24 4) (wireField (visible buf) 28 4)
                      (wireField (visible buf) 32 4) (wireField (visible buf) 36 4) in
  processDevFuseFDReadBuf writev v buf =
  ((match switchOpCode opCodeTable (OpCode h) with
    | Some hd => emit (EHandler hd h (slice_from buf InHeaderSize))
    | None => devFuseFDWriter writev v h ENOSYS []
    end) ;;
   emit (EPoolPut (devFuseFDReadPoolPutSlice buf)) ;;
   emit ECallbacksDone).
Proof.
  intros Hb h. unfold processDevFuseFDReadBuf.
  destruct (Nat.ltb_spec (sl_len buf) InHeaderSize); [unfold InHeaderSize in *; lia|].
  rewrite decodeInHeader_ok by exact Hb. rewrite bind_ret_nil.
  unfold InHeaderSize in Hb.
  rewrite !field_at by (unfold sl_cap in *; lia).
  reflexivity.
Qed.

(** C2: a frame of at least 40 bytes is decoded with each header field
    read at its documented offset and width (Len at 0, OpCode at 4, Unique
    at 8, NodeID at 16, UID at 24, GID at 28, PID at 32, Padding at 36),
    and a bound handler receives that header and the bytes from offset 40
    on as its payload. *)
Theorem processDevFuseFDReadBuf_header_offsets
    (writev : Z -> list (list Byte.byte) -> Z * Z) (v : volumeStruct) (buf : slice) :
  (InHeaderSize <= sl_len buf <= sl_cap buf)%nat ->
  exists h evs,
    processDevFuseFDReadBuf writev v buf = Ret tt evs /\
    Len h = wireField (visible buf) 0 4 /\
    OpCode h = wireField (visible buf) 4 4 /\
    Unique h = wireField (visible buf) 8 8 /\
    NodeID h = wireField (visible buf) 16 8 /\
    UID h = wireField (visible buf) 24 4 /\
    GID h = wireField (visible buf) 28 4 /\
    PID h = wireField (visible buf) 32 4 /\
    Padding h = wireField (visible buf) 36 4 /\
    (forall hd, switchOpCode opCodeTable (OpCode h) = Some hd ->
       exists payload,
         In (EHandler hd h payload) evs /\
         visible payload = skipn InHeaderSize (visible buf)).
Proof.
  intro Hb. pose proof (processDevFuseFDReadBuf_long writev v buf Hb) as Hp. cbv zeta in Hp.
  set (h := mkInHeader (wireField (visible buf) 0 4) (wireField (visible buf) 4 4)
                      (wireField (visible buf) 8 8) (wireField (visible buf) 16 8)
                      (wireField (visible buf) 24 4) (wireField (visible buf) 28 4)
                      (wireField (visible buf) 32 4) (wireField (visible buf) 36 4)) in Hp.
  destruct (switchOpCode opCodeTable (OpCode h)) as [hd|] eqn:Hsw.
  - exists h, [EHandler hd h (slice_from buf InHeaderSize);
               EPoolPut (devFuseFDReadPoolPutSlice buf); ECallbacksDone].
    split; [exact Hp|]. do 8 (split; [reflexivity|]).
    intros hd' Hhd. rewrite Hsw in Hhd. injection Hhd as <-.
    exists (slice_from buf InHeaderSize). split; [left; reflexivity|].
    unfold visible, slice_from. cbn [sl_data sl_len].
    rewrite skipn_firstn_comm. reflexivity.
  - destruct (devFuseFDWriter_ok writev v h ENOSYS [] (Forall_nil _))
      as [hdr [post [_ [Hok _]]]].
    rewrite Hok in Hp. cbn in Hp.
    eexists h, _. split; [exact Hp|]. do 8 (split; [reflexivity|]).
    intros hd Hhd. rewrite Hsw in Hhd. discriminate.
Qed.

Lemma processDevFuseFDReadBuf_header_offsets_witness :
  (InHeaderSize <= sl_len (mkSlice (le_bytes 4 40 ++ le_bytes 4 1 ++ le_bytes 8 9 ++
                                     repeat Byte.x00 24) 40)
                <= sl_cap (mkSlice (le_bytes 4 40 ++ le_bytes 4 1 ++ le_bytes 8 9 ++
                                     repeat Byte.x00 24) 40))%nat /\
  exists h evs,
    processDevFuseFDReadBuf (fun _ _ => (16, 0)) (newVolume 4096 3)
      (mkSlice (le_bytes 4 40 ++ le_bytes 4 1 ++ le_bytes 8 9 ++ repeat Byte.x00 24) 40)
      = Ret tt evs /\
    Len h = wireField (visible (mkSlice (le_bytes 4 40 ++ le_bytes 4 1 ++ le_bytes 8 9 ++
                                         repeat Byte.x00 24) 40)) 0 4 /\
    OpCode h = 1 /\ Unique h = 9 /\
    (exists payload, In (EHandler doLookup h payload) evs).
Proof.
  assert (Hb : (InHeaderSize <= sl_len (mkSlice (le_bytes 4 40 ++ le_bytes 4 1 ++ le_bytes 8 9 ++
                                     repeat Byte.x00 24) 40)
                <= sl_cap (mkSlice (le_bytes 4 40 ++ le_bytes 4 1 ++ le_bytes 8 9 ++
                                     repeat Byte.x00 24) 40))%nat)
    by (vm_compute; split; repeat constructor).
  split; [exact Hb|].
  destruct (processDevFuseFDReadBuf_header_offsets (fun _ _ => (16, 0)) (newVolume 4096 3) _ Hb)
    as [h [evs [Hp [Hl [Ho [Hu [_ [_ [_ [_ [_ Hh]]]]]]]]]]].
  exists h, evs. split; [exact Hp|]. split; [exact Hl|].
  assert (Ho1 : OpCode h = 1) by (rewrite Ho; vm_compute; reflexivity).
  split; [exact Ho1|]. split; [rewrite Hu; vm_compute; reflexivity|].
  destruct (Hh doLookup) as [pl [Hin _]]; [rewrite Ho1; reflexivity|].
  exists pl. exact Hin.
Defined.

(** C6: a frame of at least 40 bytes whose OpCode has no handler is
    answered by exactly one writev of a 16-byte header alone: length 16,
    status [-ENOSYS], Unique copied from the request; the OpCode is logged
    first. *)
Theorem processDevFuseFDReadBuf_unknown_opcode
    (writev : Z -> list (list Byte.byte) -> Z * Z) (v : volumeStruct) (buf : slice) :
  (InHeaderSize <= sl_len buf <= sl_cap buf)%nat ->
  switchOpCode opCodeTable (wireField (visible buf) 4 4) = None ->
  exists hdr post,
    processDevFuseFDReadBuf writev v buf =
      Ret tt (ELog "Read unsupported/unrecognized message OpCode == %v"
                [wireField (visible buf) 4 4]
              :: EWritev (devFuseFD v) [hdr]
              :: post ++ [EPoolPut (devFuseFDReadPoolPutSlice buf); ECallbacksDone]) /\
    Forall isLog post /\
    length (concat [hdr]) = OutHeaderSize /\
    le_val (firstn 4 hdr) = 16 /\
    to_int32 (le_val (firstn 4 (skipn 4 hdr))) = - ENOSYS /\
    le_val (firstn 8 (skipn 8 hdr)) = wireField (visible buf) 8 8.
Proof.
  intros Hb Hsw. pose proof (processDevFuseFDReadBuf_long writev v buf Hb) as Hp.
  cbv zeta in Hp.
  set (h := mkInHeader (wireField (visible buf) 0 4) (wireField (visible buf) 4 4)
                      (wireField (visible buf) 8 8) (wireField (visible buf) 16 8)
                      (wireField (visible buf) 24 4) (wireField (visible buf) 28 4)
                      (wireField (visible buf) 32 4) (wireField (visible buf) 36 4)) in Hp.
  change (OpCode h) with (wireField (visible buf) 4 4) in Hp. rewrite Hsw in Hp.
  destruct (devFuseFDWriter_ok writev v h ENOSYS [] (Forall_nil _))
    as [hdr [post [Hh [Hok Hpost]]]].
  rewrite Hok in Hp. cbn in Hp.
  exists hdr, post. split.
  { rewrite Hp. reflexivity. }
  split; [exact Hpost|].
  destruct (outHeader_fields
              (((fold_left (fun span (buf : list Byte.byte) => (span + Z.of_nat (length buf)) mod 2 ^ 64)
                  [] 0 + Z.of_nat OutHeaderSize) mod 2 ^ 64) mod 2 ^ 32)
              (to_int32 (- to_int32 ENOSYS)) (Unique h)) as [Hl [H1 [H2 H3]]].
  rewrite <- Hh in Hl, H1, H2, H3.
  split; [cbn [concat]; rewrite app_nil_r; exact Hl|].
  rewrite H1, H2, H3, !le_val_le_bytes. split; [reflexivity|]. split.
  - rewrite <- le_val_le_bytes. apply to_int32_neg_small. unfold ENOSYS. lia.
  - change (2 ^ (8 * Z.of_nat 8)) with (2 ^ 64). apply Z.mod_small.
    unfold h; cbn [Unique]. unfold InHeaderSize in Hb.
    rewrite <- field_at by lia.
    pose proof (le_val_bounds (firstn 8 (skipn 8 (sl_data buf)))) as Hbd.
    rewrite length_firstn, length_skipn in Hbd.
    unfold sl_cap in Hb. replace (Nat.min 8 (length (sl_data buf) - 8)) with 8%nat in Hbd by lia.
    exact Hbd.
Qed.

Lemma processDevFuseFDReadBuf_unknown_opcode_witness :
  (InHeaderSize <= sl_len (mkSlice (le_bytes 4 40 ++ le_bytes 4 99 ++ le_bytes 8 9 ++
                                     repeat Byte.x00 24) 40)
                <= sl_cap (mkSlice (le_bytes 4 40 ++ le_bytes 4 99 ++ le_bytes 8 9 ++
                                     repeat Byte.x00 24) 40))%nat /\
  switchOpCode opCodeTable
    (wireField (visible (mkSlice (le_bytes 4 40 ++ le_bytes 4 99 ++ le_bytes 8 9 ++
                                  repeat Byte.x00 24) 40)) 4 4) = None /\
  exists hdr post,
    processDevFuseFDReadBuf (fun _ _ => (16, 0)) (newVolume 4096 3)
      (mkSlice (le_bytes 4 40 ++ le_bytes 4 99 ++ le_bytes 8 9 ++ repeat Byte.x00 24) 40) =
      Ret tt (ELog "Read unsupported/unrecognized message OpCode == %v" [99]
              :: EWritev 3 [hdr]
              :: post ++ [EPoolPut (devFuseFDReadPoolPutSlice
                                      (mkSlice (le_bytes 4 40 ++ le_bytes 4 99 ++ le_bytes 8 9 ++
                                                repeat Byte.x00 24) 40)); ECallbacksDone]) /\
    to_int32 (le_val (firstn 4 (skipn 4 hdr))) = - 38 /\
    le_val (firstn 8 (skipn 8 hdr)) = 9.
Proof.
  assert (Hb : (InHeaderSize <= sl_len (mkSlice (le_bytes 4 40 ++ le_bytes 4 99 ++ le_bytes 8 9 ++
                                     repeat Byte.x00 24) 40)
                <= sl_cap (mkSlice (le_bytes 4 40 ++ le_bytes 4 99 ++ le_bytes 8 9 ++
                                     repeat Byte.x00 24) 40))%nat)
    by (vm_compute; split; repeat constructor).
  assert (Hs : switchOpCode opCodeTable
    (wireField (visible (mkSlice (le_bytes 4 40 ++ le_bytes 4 99 ++ le_bytes 8 9 ++
                                  repeat Byte.x00 24) 40)) 4 4) = None)
    by (vm_compute; reflexivity).
  split; [exact Hb|]. split; [exact Hs|].
  destruct (processDevFuseFDReadBuf_unknown_opcode (fun _ _ => (16, 0)) (newVolume 4096 3) _ Hb Hs)
    as [hdr [post [Hp [_ [_ [_ [Hst Hu]]]]]]].
  exists hdr, post. split; [exact Hp|]. split; [exact Hst|].
  rewrite Hu. vm_compute. reflexivity.
Defined.

(** C7: a frame shorter than the 40-byte header is dropped: one log line,
    the buffer goes back to the pool with its length reset to its
    capacity, callbacksWG.Done, and no writev. *)
Theorem processDevFuseFDReadBuf_short_frame
    (writev : Z -> list (list Byte.byte) -> Z * Z) (v : volumeStruct) (buf : slice) :
  (sl_len buf < InHeaderSize)%nat ->
  processDevFuseFDReadBuf writev v buf =
    Ret tt [ELog "Read malformed message from /dev/fuse" [];
            EPoolPut (devFuseFDReadPoolPutSlice buf); ECallbacksDone] /\
  sl_len (devFuseFDReadPoolPutSlice buf) = sl_cap buf /\
  sl_data (devFuseFDReadPoolPutSlice buf) = sl_data buf.
Proof.
  intro Hl. unfold processDevFuseFDReadBuf.
  destruct (Nat.ltb_spec (sl_len buf) InHeaderSize); [|lia].
  split; [reflexivity|]. split; reflexivity.
Qed.

Lemma processDevFuseFDReadBuf_short_frame_witness :
  (sl_len (mkSlice (repeat Byte.x00 50) 12) < InHeaderSize)%nat /\
  processDevFuseFDReadBuf (fun _ _ => (16, 0)) (newVolume 4096 3) (mkSlice (repeat Byte.x00 50) 12) =
    Ret tt [ELog "Read malformed message from /dev/fuse" [];
            EPoolPut (mkSlice (repeat Byte.x00 50) 50); ECallbacksDone].
Proof.
  assert (Hl : (sl_len (mkSlice (repeat Byte.x00 50) 12) < InHeaderSize)%nat)
    by (cbn; unfold InHeaderSize; lia).
  split; [exact Hl|].
  exact (proj1 (processDevFuseFDReadBuf_short_frame (fun _ _ => (16, 0)) (newVolume 4096 3) _ Hl)).
Defined.

(** ** The interleaved system *)

Lemma applyEvents_app (l1 l2 : list event) (p : list slice) (w : nat) :
  applyEvents (l1 ++ l2) p w =
  let '(p', w') := applyEvents l1 p w in applyEvents l2 p' w'.
Proof.
  revert p w; induction l1 as [|ev l1 IH]; intros p w; [reflexivity|].
  destruct ev; cbn [app applyEvents]; apply IH.
Qed.

Lemma applyEvents_logs (l : list event) (p : list slice) (w : nat) :
  Forall isLog l -> applyEvents l p w = (p, w).
Proof.
  intro H. revert p w; induction H as [|ev l [f [a ->]] _ IH]; intros p w; [reflexivity|].
  apply IH.
Qed.

(** Every dispatch unit finishes without panicking, puts its buffer back
    (length reset to capacity) and calls callbacksWG.Done once. *)
Lemma processDevFuseFDReadBuf_effect
    (writev : Z -> list (list Byte.byte) -> Z * Z) (v : volumeStruct) (buf : slice) :
  (sl_len buf <= sl_cap buf)%nat ->
  exists evs,
    processDevFuseFDReadBuf writev v buf = Ret tt evs /\
    forall p w, applyEvents evs p (S w) = (devFuseFDReadPoolPutSlice buf :: p, w).
Proof.
  intro Hc.
  destruct (Nat.ltb_spec (sl_len buf) InHeaderSize) as [Hs|Hl].
  - unfold processDevFuseFDReadBuf.
    destruct (Nat.ltb_spec (sl_len buf) InHeaderSize) as [_|]; [|lia].
    eexists. split; [reflexivity|].
    intros p w. cbn. rewrite Nat.sub_0_r. reflexivity.
  - pose proof (processDevFuseFDReadBuf_long writev v buf (conj Hl Hc)) as Hp. cbv zeta in Hp.
    set (h := mkInHeader (wireField (visible buf) 0 4) (wireField (visible buf) 4 4)
                        (wireField (visible buf) 8 8) (wireField (visible buf) 16 8)
                        (wireField (visible buf) 24 4) (wireField (visible buf) 28 4)
                        (wireField (visible buf) 32 4) (wireField (visible buf) 36 4)) in Hp.
    destruct (switchOpCode opCodeTable (OpCode h)) as [hd|].
    + eexists. split; [exact Hp|]. intros p w. cbn. rewrite Nat.sub_0_r. reflexivity.
    + destruct (devFuseFDWriter_ok writev v h ENOSYS [] (Forall_nil _))
        as [hdr [post [_ [Hok Hpost]]]].
      rewrite Hok in Hp. cbn in Hp.
      eexists. split; [exact Hp|]. intros p w.
      cbn [applyEvents]. rewrite applyEvents_app, applyEvents_logs by exact Hpost.
      cbn. rewrite Nat.sub_0_r. reflexivity.
Qed.

Lemma Forall_remove {A} (P : A -> Prop) (l1 l2 : list A) (x : A) :
  Forall P (l1 ++ x :: l2) -> P x /\ Forall P (l1 ++ l2).
Proof.
  rewrite !Forall_app. intros [H1 H2]. inversion H2; subst. auto.
Qed.

Lemma readInto_cap (buf : slice) (data : list Byte.byte) :
  (length data <= sl_len buf <= sl_cap buf)%nat -> sl_cap (readInto buf data) = sl_cap buf.
Proof.
  intro H. unfold readInto, sl_cap in *. cbn.
  rewrite length_app, length_skipn. lia.
Qed.

Lemma poolNew_full (v : volumeStruct) :
  sl_len (poolNew v) = readSize v /\ sl_cap (poolNew v) = readSize v.
Proof. unfold poolNew, sl_cap, readSize. cbn. rewrite repeat_length. auto. Qed.

Section Interleaving.

Variable writev : Z -> list (list Byte.byte) -> Z * Z.
Variable v : volumeStruct.

Lemma Inv_init (prog : list action) : Inv v (initSt prog).
Proof. unfold Inv, initSt. cbn. repeat split; constructor. Qed.

Lemma poolGet_full (p : list slice) (b : slice) (p' : list slice) :
  poolGet v p b p' ->
  Forall (fun b => sl_len b = readSize v /\ sl_cap b = readSize v) p ->
  (sl_len b = readSize v /\ sl_cap b = readSize v) /\
  Forall (fun b => sl_len b = readSize v /\ sl_cap b = readSize v) p'.
Proof.
  intros Hg Hp. destruct Hg as [l1 b l2|p].
  - exact (Forall_remove _ _ _ _ Hp).
  - split; [apply poolNew_full | exact Hp].
Qed.

Lemma Inv_step (s s' : St) : Inv v s -> step writev v s s' -> Inv v s'.
Proof.
  intros [Hcw [Hp [Hu [Hec Hph]]]] Hst.
  destruct Hst as [p b p' r u cw rw ec m Hg Hf | p u rw ec m e | p u cw rw ec m e
                  | p u cw rw ec m e | p pc u1 b u2 cw rw ec m evs Hproc
                  | l1 b l2 pc u cw rw ec m | p pc u cw rw ec m | p u cw rw ec m
                  | p pc u cw ec m | p pc u cw rw ec a m Ha | p pc u cw rw ec f m];
    cbn [pool pump units callbacksWG devFuseFDReaderWG errChan main] in *.
  - (* read *)
    destruct (poolGet_full p b p' Hg Hp) as [[Hbl Hbc] Hp'].
    destruct r as [data|msg]; cbn [devFuseFDReaderOnRead].
    + unfold Inv; cbn. cbn in Hf.
      repeat split; auto.
      constructor; [|exact Hu]. unfold reslice_to. cbn [sl_len].
      split; unfold sl_cap in *; cbn; rewrite length_app, length_skipn; lia.
    + destruct (String.eqb "operation not permitted" msg) eqn:Em.
      * unfold Inv; cbn. repeat split; auto.
      * unfold Inv; cbn. repeat split; auto.
        intro Heq. subst msg. discriminate Em.
  - (* callbacksWG.Wait *)
    destruct u; [|discriminate Hcw].
    unfold Inv; cbn in *. destruct Hph. repeat split; auto.
  - (* devFuseFDReaderWG.Done *)
    unfold Inv; cbn in *. repeat split; tauto.
  - (* send on errChan *)
    destruct Hph as [-> [-> Hne]].
    unfold Inv; cbn in *. repeat split; auto.
    constructor; [|constructor]. eauto.
  - (* a dispatch unit runs *)
    destruct (Forall_remove _ _ _ _ Hu) as [[Hbl Hbc] Hu'].
    destruct (processDevFuseFDReadBuf_effect writev v b Hbl) as [evs' [Hproc' Heff]].
    rewrite Hproc in Hproc'. injection Hproc' as <-.
    rewrite Hcw, length_app. cbn [length]. rewrite Nat.add_succ_r, Heff.
    unfold Inv; cbn. repeat split.
    + rewrite length_app. reflexivity.
    + constructor; [|exact Hp]. unfold devFuseFDReadPoolPutSlice, reslice_to, sl_cap in *.
      cbn. auto.
    + exact Hu'.
    + exact Hec.
    + destruct pc; cbn in *; try tauto;
        exfalso; destruct Hph as [Hnil _]; destruct u1; discriminate Hnil.
  - (* the pool drops a buffer *)
    destruct (Forall_remove _ _ _ _ Hp) as [_ Hp'].
    unfold Inv; cbn. repeat split; auto.
  - unfold Inv; cbn. repeat split; auto.
  - destruct Hph as [_ ->]. unfold Inv; cbn. repeat split; auto.
  - unfold Inv; cbn. repeat split; auto.
  - unfold Inv; cbn. repeat split; auto.
  - unfold Inv; cbn. repeat split; auto.
Qed.

Lemma Inv_steps (s s' : St) : Inv v s -> steps writev v s s' -> Inv v s'.
Proof.
  intros H Hs. induction Hs as [s|s1 s2 s3 H12 _ IH]; [exact H|].
  apply IH. exact (Inv_step s1 s2 H H12).
Qed.

Lemma Inv_reachable (prog : list action) (s : St) :
  reachable writev v prog s -> Inv v s.
Proof. intro H. exact (Inv_steps _ _ (Inv_init prog) H). Qed.

End Interleaving.

Lemma steps_trans (writev : Z -> list (list Byte.byte) -> Z * Z) (v : volumeStruct)
    (s1 s2 s3 : St) :
  steps writev v s1 s2 -> steps writev v s2 s3 -> steps writev v s1 s3.
Proof.
  intro H. induction H as [s|x y z Hxy _ IH]; intro H23; [exact H23|].
  exact (steps_cons writev v x y s3 Hxy (IH H23)).
Qed.

Lemma drain_units (writev : Z -> list (list Byte.byte) -> Z * Z) (v : volumeStruct)
    (u : list slice) (p : list slice) (rw : nat) (ec : list (option string))
    (m : list action) (e : string) :
  Forall (fun b => (sl_len b <= sl_cap b)%nat /\ sl_cap b = readSize v) u ->
  exists p', steps writev v (mkSt p (PDrain e) u (length u) rw ec m)
                            (mkSt p' (PDrain e) [] 0 rw ec m).
Proof.
  revert p; induction u as [|b u IH]; intros p Hu.
  - exists p. apply steps_refl.
  - inversion Hu as [|? ? [Hbl _] Hu']; subst.
    destruct (processDevFuseFDReadBuf_effect writev v b Hbl) as [evs [Hproc Heff]].
    destruct (IH (devFuseFDReadPoolPutSlice b :: p) Hu') as [p' Hs].
    exists p'.
    eapply steps_cons; [apply (step_unit writev v p (PDrain e) [] b u (length (b :: u))
                                 rw ec m evs Hproc)|].
    cbn [length]. rewrite Heff. exact Hs.
Qed.

(** Steps of the caller's program, and the pump's exit on a closed
    /dev/fuse, for building concrete runs. *)
Ltac main_step :=
  eapply steps_cons;
  [ first [ apply step_add_reader | apply step_spawn_pump | apply step_log
          | apply step_wait_reader | apply step_syscall; simpl; tauto ] | ].

Ltac pump_exit_no_device :=
  eapply steps_cons;
  [ eapply (step_read _ _ [] _ [] (ReadErr "no such device")); [apply poolGet_new | exact I] | ];
  cbn; eapply steps_cons; [apply step_wait | ];
  eapply steps_cons; [apply step_release | ].

(** C1: the only step that sends on errChan is the pump's final one; it
    happens with no dispatch unit running and callbacksWG at zero, on an
    empty errChan, and ends the pump; errChan never holds more than one
    value, which is there exactly when the pump has returned; and once the
    pump has seen a terminal read error, running the outstanding units to
    completion lets it deliver that outcome. *)
Theorem devFuseFDReader_errChan_once
    (writev : Z -> list (list Byte.byte) -> Z * Z) (v : volumeStruct) (prog : list action) :
  (forall s s', reachable writev v prog s -> step writev v s s' -> errChan s' <> errChan s ->
     units s = [] /\ callbacksWG s = 0%nat /\ errChan s = [] /\
     exists e, pump s = PSignal e /\ errChan s' = [errChanValue e] /\ pump s' = PExit) /\
  (forall s, reachable writev v prog s ->
     (length (errChan s) <= 1)%nat /\ (pump s = PExit <-> length (errChan s) = 1%nat)) /\
  (forall s e, reachable writev v prog s -> pump s = PDrain e ->
     (1 <= devFuseFDReaderWG s)%nat ->
     exists s', steps writev v s s' /\ errChan s' = [errChanValue e] /\
                pump s' = PExit /\ units s' = []).
Proof.
  split; [|split].
  - intros s s' Hr Hst Hne.
    destruct (Inv_reachable writev v prog s Hr) as [Hcw [_ [_ [_ Hph]]]].
    destruct Hst; cbn [errChan pump units callbacksWG] in *;
      repeat match type of Hne with context [match ?x with _ => _ end] => destruct x end;
      cbn in Hne; try (exfalso; apply Hne; reflexivity).
    destruct Hph as [-> [-> _]]. cbn in Hcw.
      repeat split; auto. exists e. auto.
  - intros s Hr.
    destruct (Inv_reachable writev v prog s Hr) as [_ [_ [_ [_ Hph]]]].
    destruct (pump s); cbn in Hph;
      repeat match goal with H : _ /\ _ |- _ => destruct H end;
      try (match goal with H : errChan s = [] |- _ => rewrite H end);
      (split; [cbn; lia | split; [discriminate || auto | cbn; discriminate || auto]]).
  - intros s e Hr Hpe Hrw.
    destruct (Inv_reachable writev v prog s Hr) as [Hcw [_ [Hu [_ Hph]]]].
    destruct s as [p pc u cw rw ec m]; cbn in *. subst pc. destruct Hph as [-> _].
    subst cw. destruct (drain_units writev v u p rw [] m e Hu) as [p' Hs].
    destruct rw as [|rw]; [lia|].
    exists (mkSt p' PExit [] 0 rw [errChanValue e] m).
    split; [|auto].
    apply (steps_trans writev v _ _ _ Hs).
    eapply steps_cons; [apply step_wait|].
    eapply steps_cons; [apply step_release|].
    eapply steps_cons; [apply step_signal|]. apply steps_refl.
Qed.

(** C5: the pump retries on "operation not permitted" without spawning a
    unit, exits with a nil outcome on "no such device" and with the error
    itself otherwise; "operation not permitted" never reaches errChan. *)
Theorem devFuseFDReader_read_errors
    (writev : Z -> list (list Byte.byte) -> Z * Z) (v : volumeStruct) (prog : list action) :
  (forall buf, devFuseFDReaderOnRead buf (ReadErr "operation not permitted") = Retry) /\
  (forall buf, devFuseFDReaderOnRead buf (ReadErr "no such device") = Exit "no such device") /\
  errChanValue "no such device" = None /\
  (forall buf msg, msg <> "operation not permitted" -> msg <> "no such device" ->
     devFuseFDReaderOnRead buf (ReadErr msg) = Exit msg /\ errChanValue msg = Some msg) /\
  (forall s, reachable writev v prog s -> ~ In (Some "operation not permitted") (errChan s)).
Proof.
  split; [reflexivity|]. split; [reflexivity|]. split; [reflexivity|]. split.
  - intros buf msg H1 H2. unfold devFuseFDReaderOnRead, errChanValue.
    destruct (String.eqb_spec "operation not permitted" msg) as [E|_]; [congruence|].
    destruct (String.eqb_spec "no such device" msg) as [E|_]; [congruence|].
    auto.
  - intros s Hr Hin.
    destruct (Inv_reachable writev v prog s Hr) as [_ [_ [_ [Hec _]]]].
    destruct (proj1 (Forall_forall _ _) Hec _ Hin) as [e [He Hne]].
    unfold errChanValue in He.
    destruct (String.eqb "no such device" e); [discriminate|].
    injection He as He. congruence.
Qed.

(** C8 (amended): the capacity fixed by [newVolume] is the uint32 sum
    [(40 + WriteInFixedPortionSize + initOutMaxWrite) mod 2^32]; putting
    a buffer truncated to any length back resets its length to its
    capacity; and in every reachable state every buffer [Get] can return
    has length and capacity equal to that fixed size. *)
Theorem devFuseFDReadPool_full_capacity
    (writev : Z -> list (list Byte.byte) -> Z * Z) (maxWrite fd : Z) (prog : list action) :
  devFuseFDReadSize (newVolume maxWrite fd) =
    (Z.of_nat InHeaderSize + WriteInFixedPortionSize + maxWrite) mod 2 ^ 32 /\
  (forall b n, (n <= sl_cap b)%nat ->
     sl_len (devFuseFDReadPoolPutSlice (reslice_to b n)) = sl_cap b /\
     sl_cap (devFuseFDReadPoolPutSlice (reslice_to b n)) = sl_cap b) /\
  (forall s b p', reachable writev (newVolume maxWrite fd) prog s ->
     poolGet (newVolume maxWrite fd) (pool s) b p' ->
     sl_len b = Z.to_nat (devFuseFDReadSize (newVolume maxWrite fd)) /\
     sl_cap b = Z.to_nat (devFuseFDReadSize (newVolume maxWrite fd))).
Proof.
  split; [reflexivity|]. split.
  - intros b n _. split; reflexivity.
  - intros s b p' Hr Hg.
    destruct (Inv_reachable writev _ prog s Hr) as [_ [Hp _]].
    exact (proj1 (poolGet_full _ _ _ _ Hg Hp)).
Qed.

(** C8 fails as stated: with [initOutMaxWrite = 2^32 - 80] the uint32 sum
    wraps and the pool hands out empty buffers. *)
Lemma devFuseFDReadSize_wraps :
  poolGet (newVolume 4294967216 3) [] (poolNew (newVolume 4294967216 3)) [] /\
  sl_len (poolNew (newVolume 4294967216 3)) = 0%nat /\
  Z.of_nat InHeaderSize + WriteInFixedPortionSize + 4294967216 = 2 ^ 32.
Proof.
  split; [apply poolGet_new|]. split; reflexivity.
Qed.

(** C4 (amended): DoUnmount returns an error exactly when the unmount or
    the close fails, and awaits the pump (devFuseFDReaderWG.Wait) only when
    both succeed; a failure returns at once. *)
Theorem DoUnmount_errors (unmountErr closeErr : option string) :
  (snd (DoUnmount unmountErr closeErr) <> None <-> (unmountErr <> None \/ closeErr <> None)) /\
  (In AWaitReader (fst (DoUnmount unmountErr closeErr)) <->
     unmountErr = None /\ closeErr = None) /\
  (forall e, unmountErr = Some e -> DoUnmount unmountErr closeErr =
     ([AUnmount; ALog "Unable to unmount %s: %v"], Some e)) /\
  (forall e, unmountErr = None -> closeErr = Some e -> DoUnmount unmountErr closeErr =
     ([AUnmount; AClose; ALog "Unable to close /dev/fuse: %v"], Some e)).
Proof.
  destruct unmountErr as [e1|], closeErr as [e2|]; cbn.
  - split; [split; [intros _; left; discriminate | intros _; discriminate] |].
    split; [split; [intros [H|[H|[]]]; discriminate | intros [H _]; discriminate] |].
    split; intros; congruence.
  - split; [split; [intros _; left; discriminate | intros _; discriminate] |].
    split; [split; [intros [H|[H|[]]]; discriminate | intros [H _]; discriminate] |].
    split; intros; congruence.
  - split; [split; [intros _; right; discriminate | intros _; discriminate] |].
    split; [split; [intros [H|[H|[H|[]]]]; discriminate | intros [_ H]; discriminate] |].
    split; intros; congruence.
  - split; [split; [intros H; contradiction H; reflexivity
                   | intros [H|H]; contradiction H; reflexivity] |].
    split; [split; [intros _; auto | intros _; simpl; auto] |].
    split; intros; congruence.
Qed.

(** C10: only the send at [PSignal] changes errChan; the pump reaches
    [PSignal] only from [PRelease], after [devFuseFDReaderWG.Done()]; and
    both DoMount-then-DoUnmount and DoMount's mount-failure path can
    finish (no action of the caller left) while the pump has released the
    wait group but not yet sent on errChan. *)
Theorem devFuseFDReaderWG_released_before_signal
    (writev : Z -> list (list Byte.byte) -> Z * Z) (v : volumeStruct) :
  (forall s s', step writev v s s' -> errChan s' <> errChan s ->
     exists e, pump s = PSignal e) /\
  (forall s s' e, step writev v s s' -> pump s' = PSignal e -> pump s <> PSignal e ->
     pump s = PRelease e /\ devFuseFDReaderWG s = S (devFuseFDReaderWG s')) /\
  reachable writev v (fst (DoMount None None) ++ fst (DoUnmount None None))
    (mkSt [] (PSignal "no such device") [] 0 0 [] []) /\
  reachable writev v (fst (DoMount None (Some "no such file or directory")))
    (mkSt [] (PSignal "no such device") [] 0 0 [] []).
Proof.
  split; [|split; [|split]].
  - intros s s' Hs Hne. destruct Hs; cbn in *;
      try (exfalso; apply Hne; reflexivity).
    + destruct (devFuseFDReaderOnRead b r); cbn in Hne; congruence.
    + eauto.
    + destruct (applyEvents evs p cw); cbn in Hne; congruence.
  - intros s s' e Hs He Hn. destruct Hs; cbn in *; try congruence.
    + destruct (devFuseFDReaderOnRead b r); cbn in He; discriminate.
    + injection He as ->. auto.
    + destruct (applyEvents evs p cw); cbn in *; congruence.
  - unfold reachable, initSt; cbn.
    do 5 main_step.
    do 3 main_step.
    pump_exit_no_device.
    do 2 main_step. apply steps_refl.
  - unfold reachable, initSt; cbn.
    do 7 main_step.
    pump_exit_no_device.
    main_step. apply steps_refl.
Qed.

(** C4 fails as stated: when the unmount fails, DoUnmount returns its error
    without waiting, and the caller can be done while the pump is still
    in its read loop holding devFuseFDReaderWG. *)
Lemma DoUnmount_failure_no_wait :
  snd (DoUnmount (Some "device or resource busy") None) = Some "device or resource busy" /\
  ~ In AWaitReader (fst (DoUnmount (Some "device or resource busy") None)) /\
  (forall writev v,
     reachable writev v
       (fst (DoMount None None) ++ fst (DoUnmount (Some "device or resource busy") None))
       (mkSt [] PLoop [] 0 1 [] [])).
Proof.
  split; [reflexivity|]. split; [cbn; intros [H|[H|[]]]; discriminate|].
  intros writev v. unfold reachable, initSt; cbn.
  do 8 main_step. apply steps_refl.
Qed.

(** * Further properties of volume.go *)

(** ** DoMount's mount options *)

Lemma splitComma_nonnil (s : string) : splitComma s <> [].
Proof.
  destruct s as [|c s]; cbn; [discriminate|].
  destruct (Ascii.eqb c ","); [discriminate|].
  destruct (splitComma s); discriminate.
Qed.

Lemma splitComma_field (a t w : string) (ws : list string) :
  splitComma a = [a] -> splitComma t = w :: ws ->
  splitComma (a ++ t) = (a ++ w)%string :: ws.
Proof.
  revert w ws; induction a as [|c a IH]; intros w ws Ha Ht; [exact Ht|].
  cbn in Ha |- *. destruct (Ascii.eqb c ","); [discriminate Ha|].
  destruct (splitComma a) as [|w' ws'] eqn:E; [exfalso; exact (splitComma_nonnil a E)|].
  injection Ha as -> ->.
  rewrite (IH w ws eq_refl Ht). reflexivity.
Qed.

Lemma string_append_empty (a : string) : (a ++ EmptyString)%string = a.
Proof. induction a as [|c a IH]; cbn; [reflexivity | now rewrite IH]. Qed.

Lemma splitComma_comma (a r : string) :
  splitComma a = [a] -> splitComma (a ++ String "," r) = a :: splitComma r.
Proof.
  intro Ha. destruct (splitComma r) as [|w ws] eqn:Er; [exfalso; exact (splitComma_nonnil r Er)|].
  rewrite (splitComma_field a (String "," r) EmptyString (w :: ws) Ha)
    by (cbn; rewrite Er; reflexivity).
  rewrite string_append_empty. reflexivity.
Qed.

Lemma splitComma_uint (d : Decimal.uint) :
  splitComma (NilEmpty.string_of_uint d) = [NilEmpty.string_of_uint d].
Proof. induction d; [reflexivity| ..]; simpl; rewrite IHd; reflexivity. Qed.

Lemma splitComma_goItoa (n : Z) : splitComma (goItoa n) = [goItoa n].
Proof.
  unfold goItoa, NilZero.string_of_int, NilZero.string_of_uint.
  destruct (Z.to_int n) as [d|d]; destruct d; try reflexivity;
    match goal with |- context [NilEmpty.string_of_uint ?x] =>
      cbn [splitComma Ascii.eqb]; try rewrite (splitComma_uint x) end;
    simpl; rewrite ?splitComma_uint; reflexivity.
Qed.

Lemma splitComma_prefix (k : string) (n : Z) :
  splitComma k = [k] -> splitComma (k ++ goItoa n) = [(k ++ goItoa n)%string].
Proof.
  intro Hk. rewrite (splitComma_field k (goItoa n) (goItoa n) [] Hk (splitComma_goItoa n)).
  reflexivity.
Qed.

Lemma goItoa_goAtoi (n : Z) : goAtoi (goItoa n) = Some n.
Proof.
  unfold goAtoi, goItoa.
  assert (Hz : forall d, Z.to_int n = d -> Z.of_int d = 0 -> d = Decimal.Pos Decimal.zero).
  { intros d Hd H0. pose proof (DecimalZ.of_to n) as E. rewrite Hd, H0 in E.
    subst n. cbn in Hd. auto. }
  rewrite NilZero.isi.
  - cbn. rewrite DecimalZ.of_to. reflexivity.
  - intro H. discriminate (Hz _ H eq_refl).
  - intro H. discriminate (Hz _ H eq_refl).
Qed.

(** Extra: DoMount's mount option string is four comma-separated fields,
    in the order fd, rootmode, user_id, group_id; rootmode is S_IFDIR in
    octal, and the fd, uid and gid fields are decimal and read back as the
    values DoMount formatted. *)
Theorem mountOptions_fields (fd uid gid : Z) :
  splitComma (mountOptions fd uid gid) =
    [("fd=" ++ goItoa fd)%string; "rootmode=40000";
     ("user_id=" ++ goItoa uid)%string; ("group_id=" ++ goItoa gid)%string] /\
  goAtoi (goItoa fd) = Some fd /\ goAtoi (goItoa uid) = Some uid /\
  goAtoi (goItoa gid) = Some gid.
Proof.
  split; [|split; [|split]]; try apply goItoa_goAtoi.
  unfold mountOptions. cbv zeta.
  assert (Hc : forall r, ("," ++ r)%string = String "," r) by reflexivity.
  rewrite !Hc.
  rewrite (splitComma_comma ("fd=" ++ goItoa fd)) by (apply splitComma_prefix; reflexivity).
  rewrite (splitComma_comma ("rootmode=" ++ goOctal S_IFDIR)) by reflexivity.
  rewrite (splitComma_comma ("user_id=" ++ goItoa uid)) by (apply splitComma_prefix; reflexivity).
  rewrite (splitComma_prefix "group_id=" gid) by reflexivity.
  reflexivity.
Qed.

(** ** The writer's report of the write *)

(** Extra: for segments that are all non-empty, the writer issues one
    writev, and logs nothing afterwards exactly when the kernel reports
    errno 0 and the full span (16 plus the segment lengths, as a uintptr)
    as written; otherwise it logs exactly one line. *)
Theorem devFuseFDWriter_outcome_log
    (writev : Z -> list (list Byte.byte) -> Z * Z) (v : volumeStruct) (h : InHeader)
    (e : Z) (bufs : list (list Byte.byte)) :
  Forall (fun b => b <> []) bufs ->
  exists iovec post,
    devFuseFDWriter writev v h e bufs =
      Ret tt ((if Z.eqb ENOSYS e
               then [ELog "Read unsupported/unrecognized message OpCode == %v" [OpCode h]]
               else []) ++ EWritev (devFuseFD v) iovec :: post) /\
    tl iovec = bufs /\
    (post = [] <->
       writev (devFuseFD v) iovec =
         ((fold_left (fun span buf => (span + Z.of_nat (length buf)) mod 2 ^ 64) bufs 0
           + Z.of_nat OutHeaderSize) mod 2 ^ 64, 0)) /\
    Forall isLog post /\ (length post <= 1)%nat.
Proof.
  intro Hne. apply forallb_nonempty in Hne.
  unfold devFuseFDWriter. rewrite mapM_index0, Hne.
  set (span := (fold_left (fun span buf => (span + Z.of_nat (length buf)) mod 2 ^ 64) bufs 0
                + Z.of_nat OutHeaderSize) mod 2 ^ 64).
  destruct (Z.eqb ENOSYS e); cbn -[Z.eqb span].
  all: destruct (writev _ _) as [bw we] eqn:Ew;
    destruct (Z.eqb_spec 0 we) as [<-|Hwe]; try destruct (Z.eqb_spec bw span) as [->|Hbw];
    cbn -[span].
  all: eexists; eexists; (split; [reflexivity|]).
  all: split; [reflexivity|].
  all: split; [rewrite Ew; split; intro H; first [reflexivity | discriminate H
                                              | injection H; intros; congruence] |].
  all: split; [repeat constructor; eexists; eexists; reflexivity | cbn; lia].
Qed.

(** ** A dispatch unit's end *)

(** Extra: every dispatch unit whose buffer has [len <= cap] finishes
    without a panic, and its last two effects, and the only ones of their
    kind, are putting the buffer back to the pool at its full capacity
    (same backing array, [len = cap]) and then callbacksWG.Done(). *)
Theorem processDevFuseFDReadBuf_releases_buffer
    (writev : Z -> list (list Byte.byte) -> Z * Z) (v : volumeStruct) (buf : slice) :
  (sl_len buf <= sl_cap buf)%nat ->
  exists pre,
    processDevFuseFDReadBuf writev v buf =
      Ret tt (pre ++ [EPoolPut (devFuseFDReadPoolPutSlice buf); ECallbacksDone]) /\
    Forall notRelease pre /\
    sl_data (devFuseFDReadPoolPutSlice buf) = sl_data buf /\
    sl_len (devFuseFDReadPoolPutSlice buf) = sl_cap buf.
Proof.
  intro Hc.
  assert (Hput : sl_data (devFuseFDReadPoolPutSlice buf) = sl_data buf /\
                 sl_len (devFuseFDReadPoolPutSlice buf) = sl_cap buf) by (split; reflexivity).
  destruct (Nat.ltb_spec (sl_len buf) InHeaderSize) as [Hs|Hl].
  - exists [ELog "Read malformed message from /dev/fuse" []].
    split; [|split; [repeat constructor | exact Hput]].
    unfold processDevFuseFDReadBuf.
    destruct (Nat.ltb_spec (sl_len buf) InHeaderSize) as [_|]; [reflexivity | lia].
  - pose proof (processDevFuseFDReadBuf_long writev v buf (conj Hl Hc)) as Hp. cbv zeta in Hp.
    set (h := mkInHeader (wireField (visible buf) 0 4) (wireField (visible buf) 4 4)
                        (wireField (visible buf) 8 8) (wireField (visible buf) 16 8)
                        (wireField (visible buf) 24 4) (wireField (visible buf) 28 4)
                        (wireField (visible buf) 32 4) (wireField (visible buf) 36 4)) in Hp.
    destruct (switchOpCode opCodeTable (OpCode h)) as [hd|].
    + exists [EHandler hd h (slice_from buf InHeaderSize)].
      split; [exact Hp | split; [repeat constructor | exact Hput]].
    + destruct (devFuseFDWriter_ok writev v h ENOSYS [] (Forall_nil _))
        as [hdr [post [_ [Hok Hpost]]]].
      rewrite Hok in Hp. cbn in Hp.
      exists (ELog "Read unsupported/unrecognized message OpCode == %v" [OpCode h]
              :: EWritev (devFuseFD v) [hdr] :: post).
      split; [rewrite Hp; reflexivity|].
      split; [|exact Hput].
      constructor; [exact I|]. constructor; [exact I|].
      refine (Forall_impl _ _ Hpost). intros ev [f [a ->]]. exact I.
Qed.

(** Extra: a frame of at least 40 bytes whose OpCode has a case in the
    switch is handed to that case's handler exactly once, with a payload
    slice that aliases the frame's buffer from offset 40 (same bytes,
    [len - 40], [cap - 40]); the unit itself writes no response and logs
    nothing, then puts the buffer back and calls callbacksWG.Done(). *)
Theorem processDevFuseFDReadBuf_dispatch
    (writev : Z -> list (list Byte.byte) -> Z * Z) (v : volumeStruct) (buf : slice)
    (hd : handler) :
  (InHeaderSize <= sl_len buf <= sl_cap buf)%nat ->
  switchOpCode opCodeTable (wireField (visible buf) 4 4) = Some hd ->
  exists h payload,
    processDevFuseFDReadBuf writev v buf =
      Ret tt [EHandler hd h payload; EPoolPut (devFuseFDReadPoolPutSlice buf); ECallbacksDone] /\
    OpCode h = wireField (visible buf) 4 4 /\ Unique h = wireField (visible buf) 8 8 /\
    visible payload = skipn InHeaderSize (visible buf) /\
    sl_data payload = skipn InHeaderSize (sl_data buf) /\
    sl_len payload = (sl_len buf - InHeaderSize)%nat /\
    sl_cap payload = (sl_cap buf - InHeaderSize)%nat.
Proof.
  intros Hb Hs.
  pose proof (processDevFuseFDReadBuf_long writev v buf Hb) as Hp. cbv zeta in Hp.
  cbn [OpCode] in Hp. rewrite Hs in Hp.
  eexists; exists (slice_from buf InHeaderSize).
  split; [exact Hp|]. split; [reflexivity|]. split; [reflexivity|].
  split; [|split; [reflexivity | split; [reflexivity|]]].
  - unfold visible, slice_from. cbn [sl_data sl_len].
    rewrite skipn_firstn_comm. reflexivity.
  - unfold sl_cap, slice_from. cbn [sl_data]. apply length_skipn.
Qed.

(** ** The reader wait group along the caller's program *)

Lemma ReaderInv_pop (p2 : list action) (a : action) (m : list action)
    (p : list slice) (pc : pumpPC) (u : list slice) (cw rw : nat) (ec : list (option string)) :
  a <> AAddReader -> a <> ASpawnPump -> (a = AWaitReader -> rw = 0%nat) ->
  ReaderInv p2 (mkSt p pc u cw rw ec (a :: m)) -> ReaderInv p2 (mkSt p pc u cw rw ec m).
Proof.
  intros Hna Hns Hw HI. unfold ReaderInv in *; cbn [main pump devFuseFDReaderWG] in *.
  destruct HI as [[l [Hm [Hla [Hls [Hrw Hpc]]]]]|[[Hm _]|[Ha [Hs [Hb Hwait]]]]].
  - left. destruct l as [|a' l]; cbn in Hm; injection Hm as Ha' Hm.
    { exfalso. apply Hna. exact Ha'. }
    exists l. split; [exact Hm|]. split; [|split; [|split]]; auto.
    + intro H. apply Hla. right. exact H.
    + intro H. apply Hls. right. exact H.
  - injection Hm as Ha' _. exfalso. apply Hns. congruence.
  - right; right. split; [intro H; apply Ha; right; exact H|].
    split; [intro H; apply Hs; right; exact H|]. split; [exact Hb|].
    intro Hin. destruct (Hwait Hin) as [[Hq|Hm]|Hr]; [|left; exact Hm | right; exact Hr].
    right. destruct Hb as [[Hr1 Hh]|[_ Hr]]; [|exact Hr].
    rewrite (Hw Hq) in Hr1. discriminate Hr1.
Qed.

Lemma ReaderInv_step (writev : Z -> list (list Byte.byte) -> Z * Z) (v : volumeStruct)
    (p2 : list action) (s s' : St) :
  ~ In AAddReader p2 -> ~ In ASpawnPump p2 ->
  ReaderInv p2 s -> step writev v s s' -> ReaderInv p2 s'.
Proof.
  intros H2a H2s HI Hst.
  destruct Hst as [p b p' r u cw rw ec m Hg Hf | p u rw ec m e | p u cw rw ec m e
                  | p u cw rw ec m e | p pc u1 b u2 cw rw ec m evs Hproc
                  | l1 b l2 pc u cw rw ec m | p pc u cw rw ec m | p u cw rw ec m
                  | p pc u cw ec m | p pc u cw rw ec a m Ha | p pc u cw rw ec f m].
  (* the pump's steps, from a running pump *)
  1-4: unfold ReaderInv in *; cbn [main pump devFuseFDReaderWG] in *;
    destruct HI as [[l [_ [_ [_ [_ Hpc]]]]]|[[_ [_ Hpc]]|[Ha [Hs [Hb Hwait]]]]];
    try discriminate Hpc.
  - destruct (devFuseFDReaderOnRead b r); cbn [main pump devFuseFDReaderWG];
      right; right; (split; [exact Ha|]); (split; [exact Hs|]);
      destruct Hb as [[Hr _]|[_ Hr]]; try exact (False_ind _ Hr);
      (split; [left; split; [exact Hr | exact I]|]);
      intro Hin; destruct (Hwait Hin) as [Hm|Hr'];
      first [left; exact Hm | exact (False_ind _ Hr')].
  - right; right. split; [exact Ha|]. split; [exact Hs|].
    destruct Hb as [[Hr _]|[_ Hr]]; [|exact (False_ind _ Hr)].
    split; [left; split; [exact Hr | exact I]|].
    intro Hin. destruct (Hwait Hin) as [Hm|Hr']; [left; exact Hm | exact (False_ind _ Hr')].
  - right; right. split; [exact Ha|]. split; [exact Hs|].
    destruct Hb as [[Hr _]|[_ Hr]]; [|exact (False_ind _ Hr)].
    injection Hr as ->. split; [right; split; [reflexivity | exact I]|].
    intros _. right. exact I.
  - right; right. split; [exact Ha|]. split; [exact Hs|].
    destruct Hb as [[_ Hr]|[Hr _]]; [exact (False_ind _ Hr)|].
    split; [right; split; [exact Hr | exact I]|].
    intros _. right. exact I.
  - (* a dispatch unit *)
    destruct (applyEvents evs p cw). exact HI.
  - exact HI.
  - (* devFuseFDReaderWG.Add(1) *)
    unfold ReaderInv in *; cbn [main pump devFuseFDReaderWG] in *.
    destruct HI as [[l [Hm [Hla [_ [Hrw Hpc]]]]]|[[Hm _]|[Ha _]]].
    + destruct l as [|a l]; cbn in Hm.
      * injection Hm as Hm. right; left. rewrite Hrw. auto.
      * injection Hm as Ha Hm. subst a. exfalso. apply Hla. left. reflexivity.
    + discriminate Hm.
    + exfalso. apply Ha. left. reflexivity.
  - (* go volume.devFuseFDReader() *)
    unfold ReaderInv in *; cbn [main pump devFuseFDReaderWG] in *.
    destruct HI as [[l [Hm [_ [Hls _]]]]|[[Hm [Hrw _]]|[_ [Hs _]]]].
    + destruct l as [|a l]; cbn in Hm; injection Hm as Ha Hm; [discriminate Ha|].
      subst a. exfalso. apply Hls. left. reflexivity.
    + injection Hm as ->. right; right. split; [exact H2a|]. split; [exact H2s|].
      split; [left; split; [exact Hrw | exact I]|]. intro Hin. left. exact Hin.
    + exfalso. apply Hs. left. reflexivity.
  - apply ReaderInv_pop with (a := AWaitReader); [discriminate | discriminate | auto | exact HI].
  - apply ReaderInv_pop with (a := a); [| | | exact HI];
      intro E; subst a; cbn in Ha; intuition discriminate.
  - apply ReaderInv_pop with (a := ALog f); [discriminate | discriminate | discriminate | exact HI].
Qed.

Lemma ReaderInv_reachable (writev : Z -> list (list Byte.byte) -> Z * Z) (v : volumeStruct)
    (p1 p2 : list action) (s : St) :
  ~ In AAddReader p1 -> ~ In ASpawnPump p1 -> ~ In AAddReader p2 -> ~ In ASpawnPump p2 ->
  reachable writev v (p1 ++ AAddReader :: ASpawnPump :: p2) s -> ReaderInv p2 s.
Proof.
  intros H1a H1s H2a H2s Hr.
  assert (H0 : ReaderInv p2 (initSt (p1 ++ AAddReader :: ASpawnPump :: p2)))
    by (left; exists p1; cbn; auto).
  unfold reachable in Hr. revert H0.
  induction Hr as [s0|x y z Hxy _ IH]; intro Hx; [exact Hx|].
  exact (IH (ReaderInv_step writev v p2 x y H2a H2s Hx Hxy)).
Qed.

Lemma ReaderInv_waited (p2 : list action) (s : St) :
  In AWaitReader p2 -> ReaderInv p2 s -> ~ In AWaitReader (main s) ->
  devFuseFDReaderWG s = 0%nat /\ pumpReleased (pump s).
Proof.
  intros Hw HI Hn.
  destruct HI as [[l [Hm _]]|[[Hm _]|[_ [_ [Hb Hwait]]]]].
  - exfalso. apply Hn. rewrite Hm. apply in_or_app. right. right. right. exact Hw.
  - exfalso. apply Hn. rewrite Hm. right. exact Hw.
  - destruct (Hwait Hw) as [Hm|Hr]; [contradiction|].
    destruct Hb as [[_ Hh]|Hb]; [|exact Hb].
    exfalso. destruct (pump s); cbn in Hh, Hr; contradiction.
Qed.

(** A caller program that never starts the pump. *)
Lemma noPump_reachable (writev : Z -> list (list Byte.byte) -> Z * Z) (v : volumeStruct)
    (prog : list action) (s : St) :
  ~ In AAddReader prog -> ~ In ASpawnPump prog ->
  reachable writev v prog s ->
  pump s = PIdle /\ devFuseFDReaderWG s = 0%nat /\
  ~ In AAddReader (main s) /\ ~ In ASpawnPump (main s).
Proof.
  intros Ha Hs Hr. unfold reachable in Hr.
  assert (H0 : pump (initSt prog) = PIdle /\ devFuseFDReaderWG (initSt prog) = 0%nat /\
               ~ In AAddReader (main (initSt prog)) /\ ~ In ASpawnPump (main (initSt prog)))
    by (cbn; auto).
  revert H0. induction Hr as [s0|x y z Hxy _ IH]; intro Hx; [exact Hx|].
  apply IH. destruct Hx as [Hpc [Hrw [Hma Hms]]].
  destruct Hxy as [p b p' r u cw rw ec m Hg Hf | p u rw ec m e | p u cw rw ec m e
                  | p u cw rw ec m e | p pc u1 b u2 cw rw ec m evs Hproc
                  | l1 b l2 pc u cw rw ec m | p pc u cw rw ec m | p u cw rw ec m
                  | p pc u cw ec m | p pc u cw rw ec a m Ha' | p pc u cw rw ec f m];
    cbn [pump devFuseFDReaderWG main] in *; try discriminate Hpc.
  - destruct (applyEvents evs p cw). cbn. auto.
  - auto.
  - exfalso. apply Hma. left. reflexivity.
  - exfalso. apply Hms. left. reflexivity.
  - split; [exact Hpc|]. split; [exact Hrw|].
    split; intro H; [apply Hma | apply Hms]; right; exact H.
  - split; [exact Hpc|]. split; [exact Hrw|].
    split; intro H; [apply Hma | apply Hms]; right; exact H.
  - split; [exact Hpc|]. split; [exact Hrw|].
    split; intro H; [apply Hma | apply Hms]; right; exact H.
Qed.

(** Once past callbacksWG.Wait(), the pump stays past it. *)
Lemma pumpAfterWait_step (writev : Z -> list (list Byte.byte) -> Z * Z) (v : volumeStruct)
    (s s' : St) :
  step writev v s s' -> pumpAfterWait (pump s) -> pumpAfterWait (pump s').
Proof.
  intros Hst H.
  destruct Hst; cbn [pump] in *; try exact I; try exact H; try contradiction.
  destruct (applyEvents evs p cw). exact H.
Qed.

Lemma Inv_afterWait (v : volumeStruct) (s : St) :
  Inv v s -> pumpAfterWait (pump s) -> units s = [] /\ callbacksWG s = 0%nat.
Proof.
  intros [Hcw [_ [_ [_ Hph]]]] Hw. rewrite Hcw.
  destruct (pump s); cbn in Hw, Hph; try contradiction;
    destruct Hph as [-> _]; auto.
Qed.

(** ** The reader wait group and DoMount's and DoUnmount's waits *)

(** Extra: DoMount's mount-failure path (open succeeded, mount failed)
    closes /dev/fuse and waits on devFuseFDReaderWG: in every run, when the
    call has returned, the pump has passed devFuseFDReaderWG.Done() (it is
    at or past its send on errChan), the wait group is zero, and no
    dispatch unit is running. *)
Theorem DoMount_mount_failure_waits_for_pump
    (writev : Z -> list (list Byte.byte) -> Z * Z) (v : volumeStruct) (e : string) (s : St) :
  reachable writev v (fst (DoMount None (Some e))) s -> main s = [] ->
  devFuseFDReaderWG s = 0%nat /\ pumpReleased (pump s) /\
  units s = [] /\ callbacksWG s = 0%nat.
Proof.
  intros Hr Hm.
  assert (HI : ReaderInv [AMount; ALog "Volume %s mount on mountpoint %s failed: %v";
                          AClose; AWaitReader] s).
  { apply (ReaderInv_reachable writev v [AUnmount; AOpen]);
      [cbn; intuition discriminate .. | exact Hr]. }
  edestruct ReaderInv_waited as [Hrw Hrel]; [| exact HI | rewrite Hm; intros [] |];
    [cbn; tauto|].
  split; [exact Hrw|]. split; [exact Hrel|].
  apply (Inv_afterWait v). { exact (Inv_reachable writev v _ s Hr). }
  destruct (pump s); cbn in *; tauto.
Qed.

(** Extra: a successful DoMount followed by a successful DoUnmount: in
    every run, when DoUnmount has returned, the pump has passed
    devFuseFDReaderWG.Done(), the wait group is zero, and no dispatch unit
    is running. *)
Theorem DoUnmount_waits_for_pump
    (writev : Z -> list (list Byte.byte) -> Z * Z) (v : volumeStruct) (s : St) :
  reachable writev v (fst (DoMount None None) ++ fst (DoUnmount None None)) s -> main s = [] ->
  devFuseFDReaderWG s = 0%nat /\ pumpReleased (pump s) /\
  units s = [] /\ callbacksWG s = 0%nat.
Proof.
  intros Hr Hm.
  assert (HI : ReaderInv [AMount; ALog "Volume %s mounted on mountpoint %s"; AUnmount; AClose;
                          AWaitReader; ALog "Volume %s unmounted from mountpoint %s"] s).
  { apply (ReaderInv_reachable writev v [AUnmount; AOpen]);
      [cbn; intuition discriminate .. | exact Hr]. }
  edestruct ReaderInv_waited as [Hrw Hrel]; [| exact HI | rewrite Hm; intros [] |];
    [cbn; tauto|].
  split; [exact Hrw|]. split; [exact Hrel|].
  apply (Inv_afterWait v). { exact (Inv_reachable writev v _ s Hr). }
  destruct (pump s); cbn in *; tauto.
Qed.

(** Extra: when DoMount fails to open /dev/fuse it starts no pump: in
    every run the pump never leaves its initial state, no request is
    dispatched, devFuseFDReaderWG and callbacksWG stay zero, and nothing is
    sent on errChan. *)
Theorem DoMount_open_failure_no_pump
    (writev : Z -> list (list Byte.byte) -> Z * Z) (v : volumeStruct) (e : string)
    (mountErr : option string) (s : St) :
  reachable writev v (fst (DoMount (Some e) mountErr)) s ->
  pump s = PIdle /\ units s = [] /\ callbacksWG s = 0%nat /\
  devFuseFDReaderWG s = 0%nat /\ errChan s = [].
Proof.
  intro Hr.
  destruct (noPump_reachable writev v (fst (DoMount (Some e) mountErr)) s) as [Hpc [Hrw _]];
    [cbn; intuition discriminate | cbn; intuition discriminate | exact Hr |].
  destruct (Inv_reachable writev v _ s Hr) as [Hcw [_ [_ [_ Hph]]]].
  rewrite Hpc in Hph. destruct Hph as [Hu Hec].
  rewrite Hcw, Hu. auto.
Qed.

(** ** The pump's bookkeeping *)

(** Extra: in every run, callbacksWG counts exactly the dispatch units in
    flight, and every in-flight unit's buffer has [len <= cap] with [cap]
    the volume's [devFuseFDReadSize]. *)
Theorem callbacksWG_counts_units
    (writev : Z -> list (list Byte.byte) -> Z * Z) (v : volumeStruct) (prog : list action)
    (s : St) :
  reachable writev v prog s ->
  callbacksWG s = length (units s) /\
  Forall (fun b => (sl_len b <= sl_cap b)%nat /\ sl_cap b = Z.to_nat (devFuseFDReadSize v))
         (units s).
Proof.
  intro Hr. destruct (Inv_reachable writev v prog s Hr) as [Hcw [_ [Hu _]]].
  split; [exact Hcw | exact Hu].
Qed.

(** Extra: once the pump has passed callbacksWG.Wait(), no dispatch unit
    runs and none is started again: in every later state of the run there
    are none, callbacksWG is zero and the pump is still past the wait. *)
Theorem devFuseFDReader_no_dispatch_after_wait
    (writev : Z -> list (list Byte.byte) -> Z * Z) (v : volumeStruct) (prog : list action)
    (s : St) :
  reachable writev v prog s -> pumpAfterWait (pump s) ->
  forall s', steps writev v s s' ->
    units s' = [] /\ callbacksWG s' = 0%nat /\ pumpAfterWait (pump s').
Proof.
  intros Hr Hw s' Hs.
  assert (Hw' : pumpAfterWait (pump s')).
  { clear Hr. induction Hs as [x|x y z Hxy _ IH]; [exact Hw|].
    exact (IH (pumpAfterWait_step writev v x y Hxy Hw)). }
  assert (Hr' : reachable writev v prog s') by exact (steps_trans writev v _ _ _ Hr Hs).
  destruct (Inv_afterWait v s' (Inv_reachable writev v prog s' Hr') Hw') as [Hu Hcw].
  auto.
Qed.

(** Extra: from the top of the read loop, a read of [n] bytes into a
    buffer taken from the pool dispatches a unit whose slice shows exactly
    the bytes read and has the volume's full read capacity, and counts it
    in callbacksWG. *)
Theorem devFuseFDReader_read_dispatch
    (writev : Z -> list (list Byte.byte) -> Z * Z) (v : volumeStruct) (prog : list action)
    (s : St) (b : slice) (p' : list slice) (data : list Byte.byte) :
  reachable writev v prog s -> pump s = PLoop -> poolGet v (pool s) b p' ->
  (length data <= sl_len b)%nat ->
  exists b',
    step writev v s (mkSt p' PLoop (b' :: units s) (S (callbacksWG s))
                          (devFuseFDReaderWG s) (errChan s) (main s)) /\
    visible b' = data /\ sl_cap b' = Z.to_nat (devFuseFDReadSize v) /\
    S (callbacksWG s) = length (b' :: units s).
Proof.
  intros Hr Hpc Hg Hd.
  destruct (Inv_reachable writev v prog s Hr) as [Hcw [Hp _]].
  destruct (poolGet_full v _ _ _ Hg Hp) as [[Hbl Hbc] _].
  exists (reslice_to (readInto b data) (length data)).
  split; [|split; [|split]].
  - destruct s as [p pc u cw rw ec m]. cbn in Hpc, Hg |- *. subst pc.
    exact (step_read writev v p b p' (ReadOk data) u cw rw ec m Hg Hd).
  - unfold visible, reslice_to, readInto. cbn [sl_data sl_len].
    rewrite firstn_app, firstn_all, Nat.sub_diag. cbn. apply app_nil_r.
  - unfold reslice_to. change (sl_cap (readInto b data) = readSize v).
    rewrite readInto_cap by lia. exact Hbc.
  - cbn [length]. rewrite Hcw. reflexivity.
Qed.

(** ** Witnesses of the hypotheses above *)

Lemma devFuseFDWriter_outcome_log_witness :
  Forall (fun b => b <> []) [[Byte.x01]] /\
  exists iovec post,
    devFuseFDWriter (fun _ _ => (17, 0)) (newVolume 4096 3) (mkInHeader 56 1 7 1 0 0 0 0) 0
      [[Byte.x01]] = Ret tt ([] ++ EWritev 3 iovec :: post) /\ post = [].
Proof.
  assert (Hn : Forall (fun b => b <> []) [[Byte.x01]]) by (repeat constructor; discriminate).
  split; [exact Hn|].
  destruct (devFuseFDWriter_outcome_log (fun _ _ => (17, 0)) (newVolume 4096 3)
              (mkInHeader 56 1 7 1 0 0 0 0) 0 [[Byte.x01]] Hn)
    as [iovec [post [Hw [_ [Hiff _]]]]].
  exists iovec, post. split; [exact Hw|]. apply Hiff. reflexivity.
Defined.

Lemma processDevFuseFDReadBuf_releases_buffer_witness :
  (sl_len (mkSlice (repeat Byte.x00 50) 12) <= sl_cap (mkSlice (repeat Byte.x00 50) 12))%nat /\
  exists pre,
    processDevFuseFDReadBuf (fun _ _ => (16, 0)) (newVolume 4096 3)
      (mkSlice (repeat Byte.x00 50) 12) =
    Ret tt (pre ++ [EPoolPut (mkSlice (repeat Byte.x00 50) 50); ECallbacksDone]) /\
    Forall notRelease pre.
Proof.
  assert (Hc : (sl_len (mkSlice (repeat Byte.x00 50) 12)
                <= sl_cap (mkSlice (repeat Byte.x00 50) 12))%nat)
    by (vm_compute; repeat constructor).
  split; [exact Hc|].
  destruct (processDevFuseFDReadBuf_releases_buffer (fun _ _ => (16, 0)) (newVolume 4096 3) _ Hc)
    as [pre [Hp [Hn _]]].
  exists pre. split; [exact Hp | exact Hn].
Defined.

Lemma processDevFuseFDReadBuf_dispatch_witness :
  (InHeaderSize <= sl_len (mkSlice (le_bytes 4 40 ++ le_bytes 4 1 ++ le_bytes 8 9 ++
                                     repeat Byte.x00 24) 40)
                <= sl_cap (mkSlice (le_bytes 4 40 ++ le_bytes 4 1 ++ le_bytes 8 9 ++
                                     repeat Byte.x00 24) 40))%nat /\
  switchOpCode opCodeTable
    (wireField (visible (mkSlice (le_bytes 4 40 ++ le_bytes 4 1 ++ le_bytes 8 9 ++
                                  repeat Byte.x00 24) 40)) 4 4) = Some doLookup /\
  exists h payload,
    processDevFuseFDReadBuf (fun _ _ => (16, 0)) (newVolume 4096 3)
      (mkSlice (le_bytes 4 40 ++ le_bytes 4 1 ++ le_bytes 8 9 ++ repeat Byte.x00 24) 40) =
    Ret tt [EHandler doLookup h payload;
            EPoolPut (mkSlice (le_bytes 4 40 ++ le_bytes 4 1 ++ le_bytes 8 9 ++
                               repeat Byte.x00 24) 40); ECallbacksDone] /\
    Unique h = 9 /\ sl_len payload = 0%nat.
Proof.
  assert (Hb : (InHeaderSize <= sl_len (mkSlice (le_bytes 4 40 ++ le_bytes 4 1 ++ le_bytes 8 9 ++
                                     repeat Byte.x00 24) 40)
                <= sl_cap (mkSlice (le_bytes 4 40 ++ le_bytes 4 1 ++ le_bytes 8 9 ++
                                     repeat Byte.x00 24) 40))%nat)
    by (vm_compute; split; repeat constructor).
  assert (Hs : switchOpCode opCodeTable
    (wireField (visible (mkSlice (le_bytes 4 40 ++ le_bytes 4 1 ++ le_bytes 8 9 ++
                                  repeat Byte.x00 24) 40)) 4 4) = Some doLookup)
    by (vm_compute; reflexivity).
  split; [exact Hb|]. split; [exact Hs|].
  destruct (processDevFuseFDReadBuf_dispatch (fun _ _ => (16, 0)) (newVolume 4096 3) _ _ Hb Hs)
    as [h [payload [Hp [_ [Hu [_ [_ [Hl _]]]]]]]].
  exists h, payload. split; [exact Hp|]. split.
  - rewrite Hu. vm_compute. reflexivity.
  - rewrite Hl. reflexivity.
Defined.

Lemma DoMount_mount_failure_waits_for_pump_witness :
  reachable (fun _ _ => (16, 0)) (newVolume 4096 3)
    (fst (DoMount None (Some "no such file or directory")))
    (mkSt [] (PSignal "no such device") [] 0 0 [] []) /\
  main (mkSt [] (PSignal "no such device") [] 0 0 [] []) = [] /\
  devFuseFDReaderWG (mkSt [] (PSignal "no such device") [] 0 0 [] []) = 0%nat /\
  pumpReleased (pump (mkSt [] (PSignal "no such device") [] 0 0 [] [])).
Proof.
  assert (Hr : reachable (fun _ _ => (16, 0)) (newVolume 4096 3)
                 (fst (DoMount None (Some "no such file or directory")))
                 (mkSt [] (PSignal "no such device") [] 0 0 [] [])).
  { unfold reachable, initSt; cbn.
    do 7 main_step. pump_exit_no_device. main_step. apply steps_refl. }
  split; [exact Hr|]. split; [reflexivity|].
  destruct (DoMount_mount_failure_waits_for_pump _ _ _ _ Hr eq_refl) as [Hw [Hrel _]].
  split; [exact Hw | exact Hrel].
Defined.

Lemma DoUnmount_waits_for_pump_witness :
  reachable (fun _ _ => (16, 0)) (newVolume 4096 3)
    (fst (DoMount None None) ++ fst (DoUnmount None None))
    (mkSt [] (PSignal "no such device") [] 0 0 [] []) /\
  main (mkSt [] (PSignal "no such device") [] 0 0 [] []) = [] /\
  devFuseFDReaderWG (mkSt [] (PSignal "no such device") [] 0 0 [] []) = 0%nat /\
  pumpReleased (pump (mkSt [] (PSignal "no such device") [] 0 0 [] [])).
Proof.
  assert (Hr : reachable (fun _ _ => (16, 0)) (newVolume 4096 3)
                 (fst (DoMount None None) ++ fst (DoUnmount None None))
                 (mkSt [] (PSignal "no such device") [] 0 0 [] [])).
  { unfold reachable, initSt; cbn.
    do 8 main_step. pump_exit_no_device. do 2 main_step. apply steps_refl. }
  split; [exact Hr|]. split; [reflexivity|].
  destruct (DoUnmount_waits_for_pump _ _ _ Hr eq_refl) as [Hw [Hrel _]].
  split; [exact Hw | exact Hrel].
Defined.

Lemma DoMount_open_failure_no_pump_witness :
  reachable (fun _ _ => (16, 0)) (newVolume 4096 3)
    (fst (DoMount (Some "no such device") None)) (mkSt [] PIdle [] 0 0 [] []) /\
  errChan (mkSt [] PIdle [] 0 0 [] []) = [].
Proof.
  assert (Hr : reachable (fun _ _ => (16, 0)) (newVolume 4096 3)
                 (fst (DoMount (Some "no such device") None)) (mkSt [] PIdle [] 0 0 [] [])).
  { unfold reachable, initSt; cbn. do 3 main_step. apply steps_refl. }
  split; [exact Hr|].
  exact (proj2 (proj2 (proj2 (proj2 (DoMount_open_failure_no_pump _ _ _ _ _ Hr))))).
Defined.

Lemma callbacksWG_counts_units_witness :
  reachable (fun _ _ => (16, 0)) (newVolume 4096 3) [ASpawnPump]
    (mkSt [] PLoop [reslice_to (readInto (poolNew (newVolume 4096 3)) [Byte.x01]) 1] 1 0 [] []) /\
  callbacksWG
    (mkSt [] PLoop [reslice_to (readInto (poolNew (newVolume 4096 3)) [Byte.x01]) 1] 1 0 [] [])
  = length
    (units (mkSt [] PLoop [reslice_to (readInto (poolNew (newVolume 4096 3)) [Byte.x01]) 1]
                 1 0 [] [])).
Proof.
  assert (Hr : reachable (fun _ _ => (16, 0)) (newVolume 4096 3) [ASpawnPump]
    (mkSt [] PLoop [reslice_to (readInto (poolNew (newVolume 4096 3)) [Byte.x01]) 1] 1 0 [] [])).
  { assert (Hf : readFits (poolNew (newVolume 4096 3)) (ReadOk [Byte.x01]))
      by (apply Nat.leb_le; vm_compute; reflexivity).
    unfold reachable, initSt.
    eapply steps_cons; [apply step_spawn_pump|].
    eapply steps_cons;
      [exact (step_read _ _ [] _ [] (ReadOk [Byte.x01]) [] 0 0 [] [] (poolGet_new _ []) Hf)|].
    apply steps_refl. }
  split; [exact Hr|].
  exact (proj1 (callbacksWG_counts_units _ _ _ _ Hr)).
Defined.

Lemma devFuseFDReader_no_dispatch_after_wait_witness :
  reachable (fun _ _ => (16, 0)) (newVolume 4096 3) [AAddReader; ASpawnPump]
    (mkSt [] (PRelease "no such device") [] 0 1 [] []) /\
  pumpAfterWait (pump (mkSt [] (PRelease "no such device") [] 0 1 [] [])) /\
  steps (fun _ _ => (16, 0)) (newVolume 4096 3)
    (mkSt [] (PRelease "no such device") [] 0 1 [] []) (mkSt [] PExit [] 0 0 [None] []) /\
  units (mkSt [] PExit [] 0 0 [None] []) = [].
Proof.
  assert (Hr : reachable (fun _ _ => (16, 0)) (newVolume 4096 3) [AAddReader; ASpawnPump]
                 (mkSt [] (PRelease "no such device") [] 0 1 [] [])).
  { unfold reachable, initSt. do 2 main_step.
    eapply steps_cons;
      [eapply (step_read _ _ [] _ [] (ReadErr "no such device")); [apply poolGet_new | exact I]|].
    cbn. eapply steps_cons; [apply step_wait|]. apply steps_refl. }
  assert (Hs : steps (fun _ _ => (16, 0)) (newVolume 4096 3)
                 (mkSt [] (PRelease "no such device") [] 0 1 [] [])
                 (mkSt [] PExit [] 0 0 [None] [])).
  { eapply steps_cons; [apply step_release|].
    eapply steps_cons; [apply step_signal|]. apply steps_refl. }
  split; [exact Hr|]. split; [exact I|]. split; [exact Hs|].
  exact (proj1 (devFuseFDReader_no_dispatch_after_wait _ _ _ _ Hr I _ Hs)).
Defined.

Lemma devFuseFDReader_read_dispatch_witness :
  reachable (fun _ _ => (16, 0)) (newVolume 4096 3) [ASpawnPump] (mkSt [] PLoop [] 0 0 [] []) /\
  pump (mkSt [] PLoop [] 0 0 [] []) = PLoop /\
  poolGet (newVolume 4096 3) [] (poolNew (newVolume 4096 3)) [] /\
  (length [Byte.x01; Byte.x02] <= sl_len (poolNew (newVolume 4096 3)))%nat /\
  exists b', visible b' = [Byte.x01; Byte.x02] /\ sl_cap b' = 4176%nat.
Proof.
  assert (Hr : reachable (fun _ _ => (16, 0)) (newVolume 4096 3) [ASpawnPump]
                 (mkSt [] PLoop [] 0 0 [] [])).
  { unfold reachable, initSt. main_step. apply steps_refl. }
  assert (Hl : (length [Byte.x01; Byte.x02] <= sl_len (poolNew (newVolume 4096 3)))%nat)
    by (apply Nat.leb_le; vm_compute; reflexivity).
  split; [exact Hr|]. split; [reflexivity|]. split; [apply poolGet_new|]. split; [exact Hl|].
  destruct (devFuseFDReader_read_dispatch _ _ _ _ _ _ _ Hr eq_refl (poolGet_new _ []) Hl)
    as [b' [_ [Hv [Hc _]]]].
  exists b'. split; [exact Hv|]. rewrite Hc. reflexivity.
Defined.
